(** * mini-test-agents: the user REST API and its browser client

    A shallow embedding of [src/api.js] (the Express handlers over the
    in-memory user store) and of [public/api-client.js] (client-side
    validation, [ApiError], [ApiCache], [CachedApiClient]) and of the parts
    of [public/app.js] that decide what is sent (the filters of [loadUsers],
    the checks of the user form), with the properties of the specification
    stated and settled over it, followed by further properties of the
    routes, of the client and of the two together.

    Conventions of the embedding.
    - A JavaScript string is a [string]: each [ascii] is one UTF-16 code unit
      below 256, so [String.length] is JavaScript's [.length]. Such a string
      has no surrogate pair, which validator.js counts once where [.length]
      counts two: names that have one are compared apart, in [Utf16].
    - A JavaScript number that the code uses as an integer (ids, the limit,
      clock readings in milliseconds) is a [Z], meant within the safe
      integers (magnitude below 2^53), where [String(n)] is the decimal
      form; [NaN] out of [parseInt] is [None].
    - A value read from a JSON body is a [Js.Value]: undefined (an absent
      property), null, a boolean, an integer or a string.
    - [new Date().toISOString()] and [Date.now()] are inputs of the operation
      that reads them.
    - The functions of express-validator's own validator library that the
      routes call, [isEmail] and [normalizeEmail], are not part of the
      repository: they are parameters of the server-side definitions.
    - A request is one that reaches its route: the middleware in front of
      the routes (helmet, cors, the rate limiter, the logger) is left out,
      and a handler is given the path parameter as Express decoded it;
      [Api.get_user_route] adds the decoding and the error middleware.
      Requests are handled one at a time, and each call of the client
      settles before the next one is made, except where the two halves of
      an [async] method are taken apart ([getUsers_before], [getUsers_after],
      [mutation_after]).
    - Where the client and the server are put together ([Session]) there is
      one client, and the ids it passes are numbers. A request reaches its
      route and is answered, or does not reach it, or is handled and its
      response lost; the query string and the JSON body arrive as sent. *)

From Stdlib Require Import ZArith Ascii String.
From stdpp Require Import base numbers option list strings gmap pretty.

Local Open Scope string_scope.
Local Open Scope Z_scope.

(** ** JavaScript values and the built-ins the code calls *)

Module Js.

Inductive Value :=
| Undefined
| Null
| Bool (b : bool)
| Num (n : Z)
| Str (s : string).

#[global] Instance Value_eq_dec : EqDecision Value.
Proof. solve_decision. Defined.

(** [ToBoolean]: what [if (v)], [!v] and [v && ...] test. *)
Definition truthy (v : Value) : bool :=
  match v with
  | Undefined | Null => false
  | Bool b => b
  | Num n => negb (n =? 0)
  | Str s => negb (String.eqb s "")
  end.

(** [a === b] on the values of the embedding. *)
Definition strict_eq (a b : Value) : bool := bool_decide (a = b).

(** [typeof v === 'string'] *)
Definition is_string (v : Value) : bool :=
  match v with Str _ => true | _ => false end.

(** [v !== undefined] *)
Definition defined (v : Value) : bool :=
  match v with Undefined => false | _ => true end.

(** [String(v)], the coercion that [RegExp.prototype.test] and [parseInt]
    apply to their argument. A number is printed in decimal, which is what
    JavaScript does for the safe integers (it changes to the exponent form
    from 10^21 on). *)
Definition ToString (v : Value) : string :=
  match v with
  | Undefined => "undefined"
  | Null => "null"
  | Bool true => "true"
  | Bool false => "false"
  | Num n => pretty n
  | Str s => s
  end.

(** The code units below 256 that are white space or line terminators:
    tab, line feed, vertical tab, form feed, carriage return, space and
    the no-break space. They are what [\s] matches, what [trim] strips and
    what [parseInt] skips. *)
Definition is_space (c : ascii) : bool :=
  let n := N_of_ascii c in
  ((9 <=? n) && (n <=? 13) || (n =? 32) || (n =? 160))%N.

Fixpoint ltrim (s : string) : string :=
  match s with
  | String c s' => if is_space c then ltrim s' else s
  | EmptyString => EmptyString
  end.

Definition rtrim (s : string) : string := String.rev (ltrim (String.rev s)).

(** [s.trim()] *)
Definition trim (s : string) : string := rtrim (ltrim s).

Definition decimal_digit (c : ascii) : option Z :=
  let n := Z.of_N (N_of_ascii c) in
  if (48 <=? n) && (n <=? 57) then Some (n - 48) else None.

Definition hex_digit (c : ascii) : option Z :=
  let n := Z.of_N (N_of_ascii c) in
  if (48 <=? n) && (n <=? 57) then Some (n - 48)
  else if (97 <=? n) && (n <=? 102) then Some (n - 87)
  else if (65 <=? n) && (n <=? 70) then Some (n - 55)
  else None.

(** The value of the longest prefix of [s] made of digits; [acc] is the
    value of the digits read so far, [None] before the first one. *)
Fixpoint digits (radix : Z) (digit : ascii → option Z) (s : string)
    (acc : option Z) : option Z :=
  match s with
  | String c s' =>
      match digit c with
      | Some d => digits radix digit s' (Some (radix * default 0 acc + d))
      | None => acc
      end
  | EmptyString => acc
  end.

(** [parseInt(s)] with no radix: leading white space skipped, an optional
    sign, an optional [0x] prefix, then the longest run of digits; [None]
    is [NaN]. *)
Definition parseInt_string (s : string) : option Z :=
  let s1 := ltrim s in
  let '(sign, s2) :=
    match s1 with
    | String "-" r => (-1, r)
    | String "+" r => (1, r)
    | _ => (1, s1)
    end in
  match s2 with
  | String "0" (String "x" r) | String "0" (String "X" r) =>
      Z.mul sign <$> digits 16 hex_digit r None
  | _ => Z.mul sign <$> digits 10 decimal_digit s2 None
  end.

Definition parseInt (v : Value) : option Z := parseInt_string (ToString v).

(** [l.slice(0, end)] where [end] is a number or [NaN]: [NaN] counts as 0
    and a negative [end] is taken from the end of the array. *)
Definition slice0 {A} (l : list A) (end_ : option Z) : list A :=
  match end_ with
  | None => []
  | Some e =>
      if e <? 0 then take (Z.to_nat (Z.of_nat (length l) + e)) l
      else take (Z.to_nat e) l
  end.

(** [l.find(p)] and [l.findIndex(p)] are stdpp's [list_find], which gives
    the first element that satisfies [p] together with its index. *)

(** [l.includes(v)] *)
Definition includes (l : list Value) (v : Value) : bool :=
  existsb (strict_eq v) l.

(** Regular expressions, as far as the client's email pattern needs them:
    character classes, concatenation and repetition, matched against the
    whole string (the pattern is anchored with [^] and [$]). *)
Inductive RegExp :=
| Empty
| Class (p : ascii → bool)
| Cat (r1 r2 : RegExp)
| Star (r : RegExp).

Definition Plus (r : RegExp) : RegExp := Cat r (Star r).
Definition Lit (c : ascii) : RegExp := Class (Ascii.eqb c).

Fixpoint nullable (r : RegExp) : bool :=
  match r with
  | Class _ => false
  | Empty | Star _ => true
  | Cat r1 r2 => nullable r1 && nullable r2
  end.

(** The residual of [r] after reading [c]; alternatives are kept as a list. *)
Fixpoint deriv (c : ascii) (r : RegExp) : list RegExp :=
  match r with
  | Empty => []
  | Class p => if p c then [Empty] else []
  | Cat r1 r2 =>
      ((λ d, Cat d r2) <$> deriv c r1) ++ (if nullable r1 then deriv c r2 else [])
  | Star r1 => (λ d, Cat d (Star r1)) <$> deriv c r1
  end.

Fixpoint matches (rs : list RegExp) (s : string) : bool :=
  match s with
  | EmptyString => existsb nullable rs
  | String c s' => matches (rs ≫= deriv c) s'
  end.

(** [r.test(s)] for a pattern anchored at both ends. *)
Definition test (r : RegExp) (s : string) : bool := matches [r] s.

End Js.

(** ** [decodeURIComponent], which Express applies to a path parameter *)

Module Uri.
Import Js.

(** What [decodeURIComponent(s)] gives: a string of the embedding, a
    string with a code unit above 255, or a thrown [URIError]. *)
Inductive Decoded :=
| Text (s : string)
| Wide
| URIError.

(** The octets still expected of a UTF-8 sequence: how many, the bounds
    of the next one, and the bits of the code point read so far. *)
Record Sequence := { remaining : nat; lowest : Z; highest : Z; bits : Z }.

(** Where the decoder stands: between characters, after [%], after [%]
    and one hexadecimal digit, or where the escape of a continuation octet
    must start. [None] is the first octet of a character. *)
Inductive Decoder :=
| Idle
| Percent (seq : option Sequence)
| Hex (seq : option Sequence) (h : Z)
| Continue (seq : Sequence).

(** A code point that ends a character: kept when the embedding has it.
    The output holds the characters in reverse order and is [None] once
    one of them is above 255. *)
Definition emit (cp : Z) (out : option string) : option string :=
  if cp <? 256 then (λ r, String (ascii_of_N (Z.to_N cp)) r) <$> out else None.

(** One decoded octet [b]: the first of a character, which tells the
    length of its UTF-8 sequence and the bounds of the second octet, or a
    continuation octet, which has to lie within its bounds. No result is
    a [URIError]: an octet that starts no sequence, or a sequence that is
    not the UTF-8 encoding of a code point. *)
Definition octet (seq : option Sequence) (b : Z) (out : option string)
    : option (Decoder * option string) :=
  match seq with
  | None =>
      if b <? 128 then Some (Idle, emit b out)
      else if (194 <=? b) && (b <=? 223) then
        Some (Continue {| remaining := 1; lowest := 128; highest := 191;
                          bits := b - 192 |}, out)
      else if (224 <=? b) && (b <=? 239) then
        Some (Continue {| remaining := 2;
                          lowest := if b =? 224 then 160 else 128;
                          highest := if b =? 237 then 159 else 191;
                          bits := b - 224 |}, out)
      else if (240 <=? b) && (b <=? 244) then
        Some (Continue {| remaining := 3;
                          lowest := if b =? 240 then 144 else 128;
                          highest := if b =? 244 then 143 else 191;
                          bits := b - 240 |}, out)
      else None
  | Some q =>
      if (lowest q <=? b) && (b <=? highest q) then
        let cp := 64 * bits q + (b - 128) in
        match remaining q with
        | 1%nat => Some (Idle, emit cp out)
        | n => Some (Continue {| remaining := Nat.pred n; lowest := 128;
                                 highest := 191; bits := cp |}, out)
        end
      else None
  end.

(** The decoder over the code units of [s]. A [%] has to be followed by
    two hexadecimal digits, and the octets of a character by the escapes
    of its continuation octets. *)
Fixpoint decode_from (st : Decoder) (s : string) (out : option string) : Decoded :=
  match s with
  | EmptyString =>
      match st with
      | Idle => match out with Some r => Text (String.rev r) | None => Wide end
      | _ => URIError
      end
  | String c s' =>
      match st with
      | Idle =>
          if Ascii.eqb c "%" then decode_from (Percent None) s' out
          else decode_from Idle s' ((λ r, String c r) <$> out)
      | Continue q =>
          if Ascii.eqb c "%" then decode_from (Percent (Some q)) s' out else URIError
      | Percent seq =>
          match hex_digit c with
          | Some h => decode_from (Hex seq h) s' out
          | None => URIError
          end
      | Hex seq h =>
          match hex_digit c with
          | Some l =>
              match octet seq (16 * h + l) out with
              | Some (st', out') => decode_from st' s' out'
              | None => URIError
              end
          | None => URIError
          end
      end
  end.

(** [decodeURIComponent(s)] *)
Definition decodeURIComponent (s : string) : Decoded := decode_from Idle s (Some "").
End Uri.

(** ** express-validator: field chains ([body('name').trim()...]) *)

Module ExpressValidator.
Import Js.

(** A request body or query: a JavaScript object read by property name. *)
Abbreviation Obj := (gmap string Value).

(** [obj.k], [undefined] when the object has no such property. *)
Definition prop (obj : Obj) (k : string) : Value := default Undefined (obj !! k).

(** The library's [toString], applied to a field before every standard
    validator and sanitizer: [undefined] and [null] become the empty
    string, other values their [String(v)]. *)
Definition toString (v : Value) : string :=
  match v with
  | Undefined | Null => ""
  | _ => ToString v
  end.

Inductive Item :=
| sanitizer (f : string → Value)
| validator (check : string → bool) (message : string).

(** [.withMessage(m)] sets the message of the last validator of the chain
    (sanitizers carry none). *)
Definition withMessage (check : string → bool) (m : string) : Item :=
  validator check m.

(** [body(field)] followed by its items; [optional] is [.optional()]: the
    chain is skipped when the field is [undefined]. *)
Record Chain := { field : string; optional : bool; items : list Item }.

(** One entry of [validationResult(req).array()]. *)
Record ValidationError := { value : Value; msg : string; param : string }.

#[global] Instance ValidationError_eq_dec : EqDecision ValidationError.
Proof. solve_decision. Defined.

(** [.trim()] *)
Definition trim : Item := sanitizer (λ s, Str (Js.trim s)).

(** [.isLength({ min, max })]. validator.js counts a surrogate pair
    once; the strings of the embedding have none, so that the length it
    compares is [.length] (see [Utf16.isLength]). *)
Definition isLength (min max : nat) (s : string) : bool :=
  (min <=? String.length s)%nat && (String.length s <=? max)%nat.

(** [.isIn(values)] *)
Definition isIn (values : list string) (s : string) : bool :=
  bool_decide (s ∈ values).

(** The items of a chain in order on the field's current value: a
    sanitizer replaces the value, a failing validator adds an error and
    the chain goes on. *)
Fixpoint run_items (f : string) (its : list Item) (v : Value)
    : Value * list ValidationError :=
  match its with
  | [] => (v, [])
  | sanitizer g :: rest => run_items f rest (g (toString v))
  | validator check m :: rest =>
      let '(v', errs) := run_items f rest v in
      if check (toString v) then (v', errs)
      else (v', {| value := v; msg := m; param := f |} :: errs)
  end.

(** A chain as a middleware: the sanitized value is written back to the
    body, the errors are appended to those of the request. *)
Definition run_chain (c : Chain) (req : Obj * list ValidationError)
    : Obj * list ValidationError :=
  let '(body, errs) := req in
  let v := prop body (field c) in
  if optional c && negb (defined v) then (body, errs)
  else
    let '(v', errs') := run_items (field c) (items c) v in
    (<[field c := v']> body, (errs ++ errs')%list).

(** The chains of a route, in the order of the route's array. *)
Definition run_chains (cs : list Chain) (body : Obj) : Obj * list ValidationError :=
  foldl (λ req c, run_chain c req) (body, []) cs.

End ExpressValidator.

(** ** src/api.js: the user store and the REST handlers *)

Module User.
Import Js.

(** A user record. [createdAt] and [updatedAt] are ISO timestamps, [None]
    while the object has no such property (the seed records have neither). *)
Record t := {
  id : Z;
  name : Value;
  email : Value;
  role : Value;
  createdAt : option string;
  updatedAt : option string
}.

#[global] Instance eq_dec : EqDecision t.
Proof. solve_decision. Defined.
End User.

Module Api.
Import Js ExpressValidator.

Abbreviation User := User.t.

(** The module-level state: [let users = [...]; let nextId = 3;] *)
Record Store := { users : list User; nextId : Z }.

Definition initial : Store := {|
  users := [
    {| User.id := 1; User.name := Str "Admin User";
       User.email := Str "admin@example.com"; User.role := Str "admin";
       User.createdAt := None; User.updatedAt := None |};
    {| User.id := 2; User.name := Str "Test User";
       User.email := Str "test@example.com"; User.role := Str "user";
       User.createdAt := None; User.updatedAt := None |} ];
  nextId := 3
|}.

(** Every stored record has an id below the counter. *)
Definition ids_below (st : Store) : Prop :=
  Forall (λ u, User.id u < nextId st) (users st).

(** The JSON envelopes the handlers send. [success] is [true] for the
    first two shapes and [false] for the third. *)
Inductive Json :=
| UserList (data : list User) (total returned : nat)
| UserData (message : option string) (data : User)
| Failure (error : string) (details : option (list ValidationError)).

Record Response := { status : Z; json : Json }.

Definition success (r : Response) : bool :=
  match json r with Failure _ _ => false | _ => true end.

Definition invalid_id : Response :=
  {| status := 400; json := Failure "Invalid user ID format" None |}.
Definition not_found : Response :=
  {| status := 404; json := Failure "User not found" None |}.
Definition email_exists : Response :=
  {| status := 409; json := Failure "Email already exists" None |}.

(** [GET /users]: [const { role, limit = 50 } = req.query], the role
    filter when [role] is truthy, then [slice(0, parseInt(limit))]. *)
Definition get_users (st : Store) (query : Obj) : Response :=
  let role := prop query "role" in
  let limit := match prop query "limit" with Undefined => Num 50 | l => l end in
  let filteredUsers :=
    if truthy role then filter (λ u, User.role u = role) (users st)
    else users st in
  let limitedUsers := slice0 filteredUsers (parseInt limit) in
  {| status := 200;
     json := UserList limitedUsers (length filteredUsers) (length limitedUsers) |}.

(** [GET /users/:id] *)
Definition get_user (st : Store) (id : string) : Response :=
  match parseInt (Str id) with
  | None => invalid_id
  | Some userId =>
      match list_find (λ u, User.id u = userId) (users st) with
      | None => not_found
      | Some (_, user) => {| status := 200; json := UserData None user |}
      end
  end.

(** The last handler of [POST /users]; [body] is the body as the
    validation chains left it, [now] is [new Date().toISOString()]. *)
Definition post_users_handler (st : Store) (body : Obj) (now : string)
    : Response * Store :=
  let name := prop body "name" in
  let email := prop body "email" in
  let role := match prop body "role" with Undefined => Str "user" | r => r end in
  match list_find (λ u, User.email u = email) (users st) with
  | Some _ => (email_exists, st)
  | None =>
      let newUser := {|
        User.id := nextId st; User.name := name; User.email := email;
        User.role := role; User.createdAt := Some now; User.updatedAt := None |} in
      ({| status := 201;
          json := UserData (Some "User created successfully") newUser |},
       {| users := users st ++ [newUser]; nextId := nextId st + 1 |})
  end.

(** The last handler of [PUT /users/:id]. *)
Definition put_user_handler (st : Store) (id : string) (body : Obj) (now : string)
    : Response * Store :=
  match parseInt (Str id) with
  | None => (invalid_id, st)
  | Some userId =>
      match list_find (λ u, User.id u = userId) (users st) with
      | None => (not_found, st)
      | Some (userIndex, user) =>
          let name := prop body "name" in
          let email := prop body "email" in
          let role := prop body "role" in
          if truthy email && negb (strict_eq email (User.email user))
             && bool_decide (is_Some (list_find (λ u, User.email u = email) (users st)))
          then (email_exists, st)
          else
            let updated := {|
              User.id := User.id user;
              User.name := if defined name then name else User.name user;
              User.email := if defined email then email else User.email user;
              User.role := if defined role then role else User.role user;
              User.createdAt := User.createdAt user;
              User.updatedAt := Some now |} in
            ({| status := 200;
                json := UserData (Some "User updated successfully") updated |},
             {| users := <[userIndex := updated]> (users st); nextId := nextId st |})
      end
  end.

(** [DELETE /users/:id]: [users.splice(userIndex, 1)]. *)
Definition delete_user (st : Store) (id : string) : Response * Store :=
  match parseInt (Str id) with
  | None => (invalid_id, st)
  | Some userId =>
      match list_find (λ u, User.id u = userId) (users st) with
      | None => (not_found, st)
      | Some (userIndex, deletedUser) =>
          ({| status := 200;
              json := UserData (Some "User deleted successfully") deletedUser |},
           {| users := delete userIndex (users st); nextId := nextId st |})
      end
  end.

(** [handleValidationErrors]: 400 with every collected error in [details]
    when there is one, the next handler otherwise. *)
Definition handleValidationErrors (errors : list ValidationError) (st : Store)
    (next : Response * Store) : Response * Store :=
  match errors with
  | [] => next
  | _ => ({| status := 400; json := Failure "Validation failed" (Some errors) |}, st)
  end.

Section Routes.
(** validator.js, as express-validator calls it. [normalizeEmail] gives a
    string, or [false] for an address it cannot normalize. *)
Variable isEmail : string → bool.
Variable normalizeEmail : string → Value.

Definition name_message := "Name must be between 2 and 50 characters".
Definition email_message := "Valid email is required".
Definition role_message := "Role must be either user or admin".

(** The chains of [POST /users]. In the source the email chain reads
    [.isEmail().normalizeEmail().withMessage(...)]: the message goes to
    [isEmail], the chain's only validator. *)
Definition post_chains : list Chain := [
  {| field := "name"; optional := false;
     items := [trim; withMessage (isLength 2 50) name_message] |};
  {| field := "email"; optional := false;
     items := [withMessage isEmail email_message; sanitizer normalizeEmail] |};
  {| field := "role"; optional := true;
     items := [withMessage (isIn ["user"; "admin"]) role_message] |} ].

(** The chains of [PUT /users/:id]: every field is [.optional()]. *)
Definition put_chains : list Chain := [
  {| field := "name"; optional := true;
     items := [trim; withMessage (isLength 2 50) name_message] |};
  {| field := "email"; optional := true;
     items := [withMessage isEmail email_message; sanitizer normalizeEmail] |};
  {| field := "role"; optional := true;
     items := [withMessage (isIn ["user"; "admin"]) role_message] |} ].

(** [POST /users]: chains, [handleValidationErrors], handler. *)
Definition post_users (st : Store) (body : Obj) (now : string) : Response * Store :=
  let '(body', errors) := run_chains post_chains body in
  handleValidationErrors errors st (post_users_handler st body' now).

(** [PUT /users/:id] *)
Definition put_user (st : Store) (id : string) (body : Obj) (now : string)
    : Response * Store :=
  let '(body', errors) := run_chains put_chains body in
  handleValidationErrors errors st (put_user_handler st id body' now).

(** A request to one of the five user routes. *)
Inductive Request :=
| GET_users (query : Obj)
| GET_user (id : string)
| POST_users (body : Obj)
| PUT_user (id : string) (body : Obj)
| DELETE_user (id : string).

(** One request handled to completion; [now] is the clock's ISO string
    at that request. *)
Definition handle (st : Store) (now : string) (req : Request) : Response * Store :=
  match req with
  | GET_users query => (get_users st query, st)
  | GET_user id => (get_user st id, st)
  | POST_users body => post_users st body now
  | PUT_user id body => put_user st id body now
  | DELETE_user id => delete_user st id
  end.

(** The requests of a process lifetime, one after the other, each with
    its response. *)
Fixpoint run (st : Store) (reqs : list (string * Request))
    : list (Request * Response) * Store :=
  match reqs with
  | [] => ([], st)
  | (now, req) :: rest =>
      let '(res, st') := handle st now req in
      let '(log, st'') := run st' rest in
      ((req, res) :: log, st'')
  end.
End Routes.

(** The id a response hands out: that of the record in a 201. *)
Definition created_id (e : Request * Response) : option Z :=
  match e with
  | (POST_users _, {| status := 201; json := UserData _ u |}) => Some (User.id u)
  | _ => None
  end.

(** The id a successful delete removed. *)
Definition deleted_id (e : Request * Response) : option Z :=
  match e with
  | (DELETE_user _, {| status := 200; json := UserData _ u |}) => Some (User.id u)
  | _ => None
  end.

(** The last middleware of the application,
    [app.use((error, req, res, next) => ...)]: whatever the error, status
    500 and [error: 'Internal server error'] (the envelope also carries a
    [message], which the embedding leaves out). *)
Definition error_middleware : Response :=
  {| status := 500; json := Failure "Internal server error" None |}.

(** [GET /users/:id] from the path segment of the URL. Express decodes
    the segment with [decodeURIComponent] to make [req.params.id]; when
    that throws, the error goes to the error middleware and the handler is
    not called. [None] when the parameter has a code unit above 255. *)
Definition get_user_route (st : Store) (segment : string) : option Response :=
  match Uri.decodeURIComponent segment with
  | Uri.Text id => Some (get_user st id)
  | Uri.URIError => Some error_middleware
  | Uri.Wide => None
  end.

End Api.

(** ** public/api-client.js: client-side validation, the cache, the cached client *)

Module Violation.
(** What [validateUserData] returns for an invalid payload. *)
Record t := { field : string; message : string }.

#[global] Instance eq_dec : EqDecision t.
Proof. solve_decision. Defined.
End Violation.

Module ApiError.
Import ExpressValidator.

(** The [details] of an [ApiError]: [null], the client's own violation in
    a one-element array, or the [details] array of a server response. *)
Inductive Details :=
| NoDetails
| ClientDetails (vs : list Violation.t)
| ServerDetails (es : list ValidationError).

Record t := { message : string; status : Z; details : Details }.


(** [isValidationError()]: [this.status === 400 && this.details]; an array
    is truthy even when it is empty, [null] is not. *)
Definition isValidationError (e : t) : bool :=
  (status e =? 400) && match details e with NoDetails => false | _ => true end.


(** [a || b] on two strings: [a] unless it is empty. *)
Definition or_else (a b : string) : string := if String.eqb a "" then b else a.

(** The letters with an accent of the messages, by their code unit. *)
Definition e_acute : string := String (ascii_of_nat 233) EmptyString.
Definition a_grave : string := String (ascii_of_nat 224) EmptyString.
Definition e_circ : string := String (ascii_of_nat 234) EmptyString.

(** [getUserMessage()]. A client violation has a [message] and no [msg], an
    error of the server a [msg] and no [message]. *)
Definition getUserMessage (e : t) : string :=
  if status e =? 0 then
    "Impossible de se connecter au serveur. V" +:+ e_acute +:+ "rifiez que l'API est d"
      +:+ e_acute +:+ "marr" +:+ e_acute +:+ "e."
  else if status e =? 400 then
    match details e with
    | ClientDetails (v :: _) => or_else (Violation.message v) (message e)
    | ServerDetails (er :: _) => or_else (msg er) (message e)
    | _ => message e
    end
  else if status e =? 404 then "Ressource non trouv" +:+ e_acute +:+ "e."
  else if status e =? 409 then
    "Cette adresse email est d" +:+ e_acute +:+ "j" +:+ a_grave +:+ " utilis"
      +:+ e_acute +:+ "e."
  else if status e =? 429 then
    "Trop de requ" +:+ e_circ +:+ "tes. Veuillez patienter avant de r" +:+ e_acute
      +:+ "essayer."
  else if status e =? 500 then
    "Erreur du serveur. Veuillez r" +:+ e_acute +:+ "essayer plus tard."
  else message e.
End ApiError.

Module ApiClient.
Import Js ExpressValidator.

(** What an [async] method settles to: the parsed envelope, or a thrown
    [ApiError]. The envelope is an object, hence truthy. *)
Inductive Outcome :=
| Resolved (data : Api.Json)
| Rejected (error : ApiError.t).

(** [[^\s@]]: any code unit that is neither white space nor [@]. *)
Definition not_space_at (c : ascii) : bool :=
  negb (is_space c) && negb (Ascii.eqb c "@").

(** [/^[^\s@]+@[^\s@]+\.[^\s@]+$/] *)
Definition emailRegex : RegExp :=
  Cat (Plus (Class not_space_at))
    (Cat (Lit "@")
       (Cat (Plus (Class not_space_at))
          (Cat (Lit ".") (Plus (Class not_space_at))))).

(** [name.trim().length < 2 || name.trim().length > 50], guarded by
    [typeof name !== 'string']. *)
Definition bad_name (name : Value) : bool :=
  match name with
  | Str s =>
      (String.length (Js.trim s) <? 2)%nat || (50 <? String.length (Js.trim s))%nat
  | _ => true
  end.

(** ['Role must be either "user" or "admin"'], the quotation mark being
    code unit 34. *)
Definition role_message : string :=
  let q := String (ascii_of_nat 34) EmptyString in
  "Role must be either " +:+ q +:+ "user" +:+ q +:+ " or " +:+ q +:+ "admin" +:+ q.

(** [validateUserData(userData, isPartial = false)]: the first violation
    found, [None] for [null]. *)
Definition validateUserData (userData : Obj) (isPartial : bool)
    : option Violation.t :=
  let name := prop userData "name" in
  let email := prop userData "email" in
  let role := prop userData "role" in
  if negb isPartial && negb (truthy name) then
    Some {| Violation.field := "name"; Violation.message := "Name is required" |}
  else if defined name && bad_name name then
    Some {| Violation.field := "name"; Violation.message := "Name must be between 2 and 50 characters" |}
  else if negb isPartial && negb (truthy email) then
    Some {| Violation.field := "email"; Violation.message := "Email is required" |}
  else if defined email && negb (test emailRegex (ToString email)) then
    Some {| Violation.field := "email"; Violation.message := "Please enter a valid email address" |}
  else if defined role && negb (includes [Str "user"; Str "admin"] role) then
    Some {| Violation.field := "role"; Violation.message := role_message |}
  else None.

(** [!id || isNaN(parseInt(id))] *)
Definition bad_id (id : Value) : bool :=
  negb (truthy id) || bool_decide (parseInt id = None).

Definition invalid_id : ApiError.t :=
  {| ApiError.message := "Invalid user ID"; ApiError.status := 400;
     ApiError.details := ApiError.NoDetails |}.
Definition validation_error (v : Violation.t) : ApiError.t :=
  {| ApiError.message := "Validation error"; ApiError.status := 400;
     ApiError.details := ApiError.ClientDetails [v] |}.

(** The three mutating methods. [net] is what [this.request(...)] settles
    to if it is called; the boolean tells whether it was called. *)
Definition createUser (userData : Obj) (net : Outcome) : Outcome * bool :=
  match validateUserData userData false with
  | Some validationError => (Rejected (validation_error validationError), false)
  | None => (net, true)
  end.

Definition updateUser (id : Value) (userData : Obj) (net : Outcome) : Outcome * bool :=
  if bad_id id then (Rejected invalid_id, false)
  else
    match validateUserData userData true with
    | Some validationError => (Rejected (validation_error validationError), false)
    | None => (net, true)
    end.

Definition deleteUser (id : Value) (net : Outcome) : Outcome * bool :=
  if bad_id id then (Rejected invalid_id, false) else (net, true).

(** [getUsers(filters)] builds the query string and always calls
    [this.request]. *)
Definition getUsers (net : Outcome) : Outcome * bool := (net, true).

(** [getUser(id)] *)
Definition getUser (id : Value) (net : Outcome) : Outcome * bool :=
  if bad_id id then (Rejected invalid_id, false) else (net, true).

(** What [fetch(url, options)] and [response.json()] give to [request]: a
    network fault, a response whose body is no JSON, or a response with its
    status and its parsed body. *)
Inductive Fetched :=
| NetworkFault
| NotJson (status : Z)
| Answer (status : Z) (data : Api.Json).

(** [response.ok] *)
Definition ok (status : Z) : bool := (200 <=? status) && (status <=? 299).

Definition network_error : ApiError.t :=
  {| ApiError.message := "Network error or server unavailable"; ApiError.status := 0;
     ApiError.details := ApiError.NoDetails |}.

(** [data.error || 'Request failed'] and [data.details] of an envelope; the
    constructor of [ApiError] turns a missing [details] into [null]. *)
Definition error_of (status : Z) (data : Api.Json) : ApiError.t :=
  match data with
  | Api.Failure error details =>
      {| ApiError.message := ApiError.or_else error "Request failed";
         ApiError.status := status;
         ApiError.details :=
           match details with
           | Some es => ApiError.ServerDetails es
           | None => ApiError.NoDetails
           end |}
  | _ =>
      {| ApiError.message := "Request failed"; ApiError.status := status;
         ApiError.details := ApiError.NoDetails |}
  end.

(** [request(endpoint, options)]: the parsed body when the response is ok,
    an [ApiError] with the status of the response when it is not, and the
    network error, of status 0, for every other exception. *)
Definition request (f : Fetched) : Outcome :=
  match f with
  | Answer status data =>
      if ok status then Resolved data else Rejected (error_of status data)
  | NotJson _ | NetworkFault => Rejected network_error
  end.

End ApiClient.

(** The rules of the client check one field at a time, in the order the
    specification gives them (name, then email, then role), and the list of
    every violation of a payload in that order. [validateUserData] is
    compared with the head of this list. *)
Module Rules.
Import Js ExpressValidator ApiClient.

Definition name_violation (isPartial : bool) (name : Value) : option Violation.t :=
  if negb isPartial && negb (truthy name) then
    Some {| Violation.field := "name"; Violation.message := "Name is required" |}
  else if defined name && bad_name name then
    Some {| Violation.field := "name";
            Violation.message := "Name must be between 2 and 50 characters" |}
  else None.

Definition email_violation (isPartial : bool) (email : Value) : option Violation.t :=
  if negb isPartial && negb (truthy email) then
    Some {| Violation.field := "email"; Violation.message := "Email is required" |}
  else if defined email && negb (test emailRegex (ToString email)) then
    Some {| Violation.field := "email";
            Violation.message := "Please enter a valid email address" |}
  else None.

Definition role_violation (role : Value) : option Violation.t :=
  if defined role && negb (includes [Str "user"; Str "admin"] role) then
    Some {| Violation.field := "role"; Violation.message := role_message |}
  else None.

Definition violations (userData : Obj) (isPartial : bool) : list Violation.t :=
  omap id [name_violation isPartial (prop userData "name");
           email_violation isPartial (prop userData "email");
           role_violation (prop userData "role")].

End Rules.

Module ApiCache.
Section Cache.
Context {V : Type}.

(** An entry of the map: [{ value, timestamp }]. *)
Record Item := { value : V; timestamp : Z }.

(** [this.cache] (a [Map]) and [this.ttl], in milliseconds. *)
Record t := { cache : gmap string Item; ttl : Z }.

(** [new ApiCache(ttl = 30000)] *)
Definition new (ttl : option Z) : t :=
  {| cache := ∅; ttl := default 30000 ttl |}.

(** [set(key, value)]; [now] is [Date.now()]. *)
Definition set (c : t) (now : Z) (key : string) (v : V) : t :=
  {| cache := <[key := {| value := v; timestamp := now |}]> (cache c);
     ttl := ttl c |}.

(** [get(key)]: [None] is [null]. An entry is evicted when
    [Date.now() - item.timestamp > this.ttl]. *)
Definition get (c : t) (now : Z) (key : string) : option V * t :=
  match cache c !! key with
  | None => (None, c)
  | Some item =>
      if ttl c <? now - timestamp item
      then (None, {| cache := delete key (cache c); ttl := ttl c |})
      else (Some (value item), c)
  end.

(** [clear()] *)
Definition clear (c : t) : t := {| cache := ∅; ttl := ttl c |}.

(** [delete(key)] *)
Definition delete (c : t) (key : string) : t :=
  {| cache := base.delete key (cache c); ttl := ttl c |}.
End Cache.
Arguments Item : clear implicits.
Arguments t : clear implicits.
End ApiCache.

Module JSON.
Import Js.

(** The filters passed to [getUsers]: an object literal, as its own
    properties in insertion order. *)
Abbreviation Props := (list (string * Value)).

Definition hex_char (n : N) : ascii :=
  ascii_of_N (if (n <? 10)%N then 48 + n else 87 + n).

(** One code unit inside a JSON string. *)
Definition escape (c : ascii) : string :=
  let n := N_of_ascii c in
  let bs := String (ascii_of_nat 92) EmptyString in
  if (n =? 34)%N then bs +:+ String c EmptyString
  else if (n =? 92)%N then bs +:+ bs
  else if (n =? 8)%N then bs +:+ "b"
  else if (n =? 9)%N then bs +:+ "t"
  else if (n =? 10)%N then bs +:+ "n"
  else if (n =? 12)%N then bs +:+ "f"
  else if (n =? 13)%N then bs +:+ "r"
  else if (n <? 32)%N then
    bs +:+ "u00" +:+ String (hex_char (n / 16)) (String (hex_char (n mod 16)) EmptyString)
  else String c EmptyString.

Fixpoint escape_all (s : string) : string :=
  match s with
  | EmptyString => EmptyString
  | String c s' => escape c +:+ escape_all s'
  end.

Definition quote (s : string) : string :=
  let q := String (ascii_of_nat 34) EmptyString in
  q +:+ escape_all s +:+ q.

(** A property value; a property whose value is [undefined] is left out. *)
Definition value (v : Value) : option string :=
  match v with
  | Undefined => None
  | Str s => Some (quote s)
  | _ => Some (ToString v)
  end.

Definition member (kv : string * Value) : option string :=
  (λ j, quote kv.1 +:+ ":" +:+ j) <$> value kv.2.

(** [JSON.stringify(obj)] for an object of scalars. *)
Definition stringify (obj : Props) : string :=
  "{" +:+ String.concat "," (omap member obj) +:+ "}".
End JSON.

Module CachedApiClient.
Import Js ExpressValidator ApiClient.

(** The state of a [CachedApiClient] that its methods read and write:
    [this.cache]. *)
Abbreviation t := (ApiCache.t Api.Json).

(** [new CachedApiClient()] *)
Definition new : t := ApiCache.new None.

Definition cacheKey (filters : JSON.Props) : string :=
  "users-" +:+ JSON.stringify filters.

(** [getUsers(filters)]. [now] is the clock when the cache is read, [now']
    when the response is stored; [net] is what [super.getUsers(filters)]
    settles to. The boolean tells whether the network was used. *)
Definition getUsers (c : t) (filters : JSON.Props) (now now' : Z) (net : Outcome)
    : Outcome * bool * t :=
  let '(cached, c1) := ApiCache.get c now (cacheKey filters) in
  match cached with
  | Some data => (Resolved data, false, c1)
  | None =>
      match ApiClient.getUsers net with
      | (Resolved result, used) =>
          (Resolved result, used, ApiCache.set c1 now' (cacheKey filters) result)
      | (Rejected e, used) => (Rejected e, used, c1)
      end
  end.

(** [await super.m(...); this.cache.clear(); return result]: the cache is
    cleared only when the call of the parent class did not throw. *)
Definition invalidating (c : t) (r : Outcome * bool) : Outcome * bool * t :=
  match r with
  | (Resolved result, used) => (Resolved result, used, ApiCache.clear c)
  | (Rejected e, used) => (Rejected e, used, c)
  end.

Definition createUser (c : t) (userData : Obj) (net : Outcome) : Outcome * bool * t :=
  invalidating c (ApiClient.createUser userData net).

Definition updateUser (c : t) (id : Value) (userData : Obj) (net : Outcome)
    : Outcome * bool * t :=
  invalidating c (ApiClient.updateUser id userData net).

Definition deleteUser (c : t) (id : Value) (net : Outcome) : Outcome * bool * t :=
  invalidating c (ApiClient.deleteUser id net).

(** A call of one of the four cached methods, settled before the next. *)
Inductive Call :=
| GetUsers (filters : JSON.Props) (now now' : Z)
| CreateUser (userData : Obj)
| UpdateUser (id : Value) (userData : Obj)
| DeleteUser (id : Value).

Definition call (c : t) (k : Call) (net : Outcome) : Outcome * bool * t :=
  match k with
  | GetUsers filters now now' => getUsers c filters now now' net
  | CreateUser userData => createUser c userData net
  | UpdateUser id userData => updateUser c id userData net
  | DeleteUser id => deleteUser c id net
  end.

(** The cache after a sequence of calls, each with the network's answer. *)
Definition run (c : t) (calls : list (Call * Outcome)) : t :=
  foldl (λ c kn, (call c kn.1 kn.2).2) c calls.




(** The two halves of [getUsers] around its [await]. Before it: the key,
    and the read of the cache at [now]; on a miss the request is sent and
    other calls can run until the response is there. After it: the response
    is stored, at [now'], under the key computed before. *)
Definition getUsers_before (c : t) (filters : JSON.Props) (now : Z)
    : option Api.Json * t :=
  ApiCache.get c now (cacheKey filters).

Definition getUsers_after (c : t) (filters : JSON.Props) (now' : Z) (net : Outcome)
    : Outcome * t :=
  match net with
  | Resolved result => (Resolved result, ApiCache.set c now' (cacheKey filters) result)
  | Rejected e => (Rejected e, c)
  end.

(** The half of [createUser], [updateUser] and [deleteUser] after their
    [await]: the cache is cleared when the request resolved. *)
Definition mutation_after (c : t) (net : Outcome) : Outcome * t :=
  match net with
  | Resolved result => (Resolved result, ApiCache.clear c)
  | Rejected e => (Rejected e, c)
  end.
End CachedApiClient.

(** ** public/app.js: the filters of the page and the user form *)

Module App.
Import Js.

(** The filters [loadUsers] passes to [getUsers]:
    [const filters = {}; if (this.currentFilter) filters.role = this.currentFilter]. *)
Definition filters (currentFilter : string) : JSON.Props :=
  if truthy (Str currentFilter) then [("role", Str currentFilter)] else [].

(** [validateName()] on the value of the name input: the boolean it
    returns. The error it shows or hides under the field is not modelled. *)
Definition validateName (value : string) : bool :=
  let name := Js.trim value in
  if negb (truthy (Str name)) then false
  else if (String.length name <? 2)%nat || (50 <? String.length name)%nat then false
  else true.

(** [validateEmail()] on the value of the email input. *)
Definition validateEmail (value : string) : bool :=
  let email := Js.trim value in
  if negb (truthy (Str email)) then false
  else if negb (test ApiClient.emailRegex email) then false
  else true.

(** The user form when it is submitted: the values of its fields [name],
    [email] and [role]. The first two are the inputs that [validateName] and
    [validateEmail] read; [formData.get('role')] is a string, or [null]
    when the form has no such field. *)
Record Form := { userName : string; userEmail : string; userRole : Value }.

(** [validateForm()]: both fields are checked, then the conjunction. *)
Definition validateForm (f : Form) : bool :=
  let nameValid := validateName (userName f) in
  let emailValid := validateEmail (userEmail f) in
  nameValid && emailValid.

(** The payload of [handleFormSubmit]. *)
Definition userData (f : Form) : ExpressValidator.Obj :=
  {[ "name" := Str (Js.trim (userName f));
     "email" := Str (Js.trim (userEmail f));
     "role" := userRole f ]}.

(** [handleFormSubmit(e)] up to the call it makes: none while a load is
    running or when the form does not validate; otherwise [updateUser] when
    [editingUserId] is truthy and [createUser] when it is not. *)
Definition handleFormSubmit (isLoading : bool) (editingUserId : Value) (f : Form)
    : option CachedApiClient.Call :=
  if isLoading then None
  else if negb (validateForm f) then None
  else if truthy editingUserId
       then Some (CachedApiClient.UpdateUser editingUserId (userData f))
       else Some (CachedApiClient.CreateUser (userData f)).
End App.

(** ** The client and the server together *)

Module Session.
Import Js ExpressValidator ApiClient.

(** [filters.k]: a property of the filters object. *)
Fixpoint get (filters : JSON.Props) (k : string) : Value :=
  match filters with
  | [] => Undefined
  | (k', v) :: rest => if String.eqb k' k then v else get rest k
  end.

(** [req.query] for the URL that [getUsers(filters)] builds: [role] and
    [limit] are appended when they are truthy, and arrive as strings. *)
Definition query (filters : JSON.Props) : Obj :=
  let add (k : string) (q : Obj) : Obj :=
    if truthy (get filters k) then <[k := Str (ToString (get filters k))]> q else q in
  add "role" (add "limit" ∅).

(** [req.body] for the body [JSON.stringify(userData)]: the properties
    that are not [undefined]. *)
Definition wire (userData : Obj) : Obj :=
  filter (λ kv, kv.2 ≠ Undefined) userData.

(** A call of the cached client; the id of a record is a number, as in
    the records the server sends. *)
Inductive Call :=
| GetUsers (filters : JSON.Props) (now now' : Z)
| CreateUser (userData : Obj)
| UpdateUser (id : Z) (userData : Obj)
| DeleteUser (id : Z).

Definition method (k : Call) : CachedApiClient.Call :=
  match k with
  | GetUsers filters now now' => CachedApiClient.GetUsers filters now now'
  | CreateUser userData => CachedApiClient.CreateUser userData
  | UpdateUser id userData => CachedApiClient.UpdateUser (Num id) userData
  | DeleteUser id => CachedApiClient.DeleteUser (Num id)
  end.

(** The request each call sends when it sends one; the path ends in
    [`${id}`]. *)
Definition request_of (k : Call) : Api.Request :=
  match k with
  | GetUsers filters _ _ => Api.GET_users (query filters)
  | CreateUser userData => Api.POST_users (wire userData)
  | UpdateUser id userData => Api.PUT_user (ToString (Num id)) (wire userData)
  | DeleteUser id => Api.DELETE_user (ToString (Num id))
  end.

(** What happens to a request on its way: it reaches its route and the
    response reaches the client; or it does not reach the route (a network
    fault, or the middleware answers in its place) and [request] throws
    [e]; or the route handles it and the response is lost. *)
Inductive Link :=
| Delivered
| Refused (e : ApiError.t)
| Unanswered.

Record Event := { call : Call; link : Link; iso : string }.

(** The cache of the one client and the store of the server. *)
Record t := { client : CachedApiClient.t; server : Api.Store }.

Section Exchange.
Variable isEmail : string → bool.
Variable normalizeEmail : string → Value.

Definition initial : t := {| client := CachedApiClient.new; server := Api.initial |}.

(** One request on one link: what [this.request] settles to, and the
    store afterwards. [iso] is the clock of the server. *)
Definition exchange (l : Link) (st : Api.Store) (iso : string) (req : Api.Request)
    : Outcome * Api.Store :=
  match l with
  | Delivered =>
      let '(res, st') := Api.handle isEmail normalizeEmail st iso req in
      (request (Answer (Api.status res) (Api.json res)), st')
  | Refused e => (Rejected e, st)
  | Unanswered =>
      (Rejected network_error, (Api.handle isEmail normalizeEmail st iso req).2)
  end.

(** One call of the client, settled before the next: the server sees a
    request only when the client sends one. *)
Definition step (s : t) (ev : Event) : Outcome * t :=
  let '(net, st') := exchange (link ev) (server s) (iso ev) (request_of (call ev)) in
  let '(o, used, c') := CachedApiClient.call (client s) (method (call ev)) net in
  (o, {| client := c'; server := if used : bool then st' else server s |}).

(** The calls of a session, each with its outcome and the state it
    leaves. *)
Fixpoint run (s : t) (evs : list Event) : list (Event * Outcome * t) :=
  match evs with
  | [] => []
  | ev :: rest => let '(o, s') := step s ev in (ev, o, s') :: run s' rest
  end.
End Exchange.

(** The filters of a call. *)
Definition filters_of (k : Call) : option JSON.Props :=
  match k with GetUsers filters _ _ => Some filters | _ => None end.

(** No response to a mutation is lost. *)
Definition answered (ev : Event) : Prop :=
  link ev = Unanswered → is_Some (filters_of (call ev)).

(** Every entry of the cache is what the server would answer now to the
    filters it was stored for, these being among [F]. *)
Definition coherent (F : list JSON.Props) (s : t) : Prop :=
  ∀ key item, ApiCache.cache (client s) !! key = Some item →
    ∃ filters, filters ∈ F ∧ key = CachedApiClient.cacheKey filters ∧
      ApiCache.value item = Api.json (Api.get_users (server s) (query filters)).

(** Filters with the same cache key ask the server the same question. *)
Definition separated (F : list JSON.Props) : Prop :=
  ∀ f1 f2, f1 ∈ F → f2 ∈ F →
    CachedApiClient.cacheKey f1 = CachedApiClient.cacheKey f2 → query f1 = query f2.
(** What a session keeps true of the reads. *)
Definition current (e : Event * Outcome * Session.t) : Prop :=
  ∀ filters data,
    filters_of (call e.1.1) = Some filters → e.1.2 = Resolved data →
    data = Api.json (Api.get_users (server e.2) (query filters)).
End Session.


(** ** A validator instance and inputs for the closed examples *)

Module Sample.
Import Js ExpressValidator.

(** A stand-in for validator.js: [isEmail] asks for [local@domain.tld]
    with a last label of two code units or more, and normalizing
    lowercases ASCII letters. The theorems below hold for every [isEmail]
    and [normalizeEmail]; this instance only serves to evaluate them on
    concrete requests. *)
Definition label_char (c : ascii) : bool :=
  ApiClient.not_space_at c && negb (Ascii.eqb c ".").

Definition isEmail (s : string) : bool :=
  test (Cat (Plus (Class ApiClient.not_space_at))
          (Cat (Lit "@")
             (Cat (Plus (Class ApiClient.not_space_at))
                (Cat (Lit ".")
                   (Cat (Class label_char) (Plus (Class label_char))))))) s.

Definition lower (c : ascii) : ascii :=
  let n := N_of_ascii c in
  if ((65 <=? n) && (n <=? 90))%N then ascii_of_N (n + 32) else c.

Fixpoint lowercase (s : string) : string :=
  match s with
  | EmptyString => EmptyString
  | String c s' => String (lower c) (lowercase s')
  end.

Definition normalizeEmail (s : string) : Value := Str (lowercase s).

(** A second stand-in for [normalizeEmail], with the [false] validator.js
    gives for an address it cannot normalize: of a gmail.com address it
    drops the sub-address, the [+] of the local part and what follows, and
    when nothing is left, as for [+tag@gmail.com], the result is [false]. *)
Definition normalizeEmail_or_false (s : string) : Value :=
  if String.eqb (lowercase s) "+tag@gmail.com" then Bool false else Str (lowercase s).

Definition body (name email role : Value) : Obj :=
  {[ "name" := name; "email" := email; "role" := role ]}.

Definition now : string := "2024-01-01T00:00:00.000Z".
End Sample.

(** ** What the validation chains compute, field by field *)

Module Chains.
Import Js ExpressValidator.

Section Fields.
Variable isEmail : string → bool.
Variable normalizeEmail : string → Value.

(** A chain is skipped when it is optional and the field is undefined. *)
Definition skipped (opt : bool) (v : Value) : bool := opt && negb (defined v).

(** The value each chain leaves in the body. *)
Definition name_sanitized (opt : bool) (v : Value) : Value :=
  if skipped opt v then v else Str (Js.trim (toString v)).
Definition email_sanitized (opt : bool) (v : Value) : Value :=
  if skipped opt v then v else normalizeEmail (toString v).

(** The verdict of each chain. *)
Definition name_ok (opt : bool) (v : Value) : bool :=
  skipped opt v || isLength 2 50 (Js.trim (toString v)).
Definition email_ok (opt : bool) (v : Value) : bool :=
  skipped opt v || isEmail (toString v).
Definition role_ok (v : Value) : bool :=
  skipped true v || isIn ["user"; "admin"] (toString v).

(** The error each chain adds when its verdict is negative. *)
Definition name_errors (opt : bool) (v : Value) : list ValidationError :=
  if name_ok opt v then []
  else [{| value := Str (Js.trim (toString v)); msg := Api.name_message;
           param := "name" |}].
Definition email_errors (opt : bool) (v : Value) : list ValidationError :=
  if email_ok opt v then []
  else [{| value := v; msg := Api.email_message; param := "email" |}].
Definition role_errors (v : Value) : list ValidationError :=
  if role_ok v then []
  else [{| value := v; msg := Api.role_message; param := "role" |}].

(** All the errors of a body, [opt] telling the mode: [false] for the
    chains of POST, [true] for those of PUT. *)
Definition errors (opt : bool) (body : Obj) : list ValidationError :=
  (name_errors opt (prop body "name") ++ email_errors opt (prop body "email")
     ++ role_errors (prop body "role"))%list.

Definition chains (opt : bool) : list Chain :=
  if opt then Api.put_chains isEmail normalizeEmail
  else Api.post_chains isEmail normalizeEmail.
End Fields.

(** The effect of one chain: it sanitizes its own field, leaves the other
    properties alone and appends its errors. *)
Definition chain_effect (c : Chain) (san : Value → Value)
    (errsf : Value → list ValidationError) : Prop :=
  ∀ body errs,
    let r := run_chain c (body, errs) in
    r.2 = (errs ++ errsf (prop body (field c)))%list ∧
    prop r.1 (field c) = san (prop body (field c)) ∧
    ∀ k, k ≠ field c → prop r.1 k = prop body k.

End Chains.

(** ** Names with code units above 255

    The strings of the embedding stop at code unit 255, where the
    [isLength] of validator.js cannot differ from [.length]. To compare the
    two where they differ, on a surrogate pair, a name is here the list of
    its UTF-16 code units. Nothing else uses this module. *)
Module Utf16.

(** White space and line terminators, over all code units. *)
Definition is_space (u : N) : bool :=
  ((9 <=? u) && (u <=? 13) || (u =? 32) || (u =? 160) || (u =? 5760)
   || (8192 <=? u) && (u <=? 8202) || (u =? 8232) || (u =? 8233) || (u =? 8239)
   || (u =? 8287) || (u =? 12288) || (u =? 65279))%N.

Fixpoint ltrim (s : list N) : list N :=
  match s with
  | u :: s' => if is_space u then ltrim s' else s
  | [] => []
  end.

Definition trim (s : list N) : list N := rev (ltrim (rev (ltrim s))).

Definition high_surrogate (u : N) : bool := ((55296 <=? u) && (u <=? 56319))%N.
Definition low_surrogate (u : N) : bool := ((56320 <=? u) && (u <=? 57343))%N.

(** The matches of [/[\uD800-\uDBFF][\uDC00-\uDFFF]/g], from left to
    right. *)
Fixpoint surrogate_pairs (s : list N) : nat :=
  match s with
  | u :: s' =>
      match s' with
      | v :: s'' =>
          if high_surrogate u && low_surrogate v then S (surrogate_pairs s'')
          else surrogate_pairs s'
      | [] => O
      end
  | [] => O
  end.

(** [isLength(str, { min, max })] of validator.js on a string without
    variation selectors: the length with a surrogate pair counted once. *)
Definition isLength (min max : nat) (s : list N) : bool :=
  let len := (length s - surrogate_pairs s)%nat in
  (min <=? len)%nat && (len <=? max)%nat.

(** The name rule of the client on a string,
    [name.trim().length < 2 || name.trim().length > 50], and the chain of
    the server, [.trim().isLength({ min: 2, max: 50 })]. *)
Definition client_name_ok (name : list N) : bool :=
  negb ((length (trim name) <? 2)%nat || (50 <? length (trim name))%nat).
Definition server_name_ok (name : list N) : bool := isLength 2 50 (trim name).

(** A string of the embedding as its code units. *)
Definition of_string (s : string) : list N := N_of_ascii <$> String.list_ascii_of_string s.
End Utf16.

(** ** Notions used to state the further properties *)

(** The stages of [parseInt]. *)
Module ParseIntStages.
Import Js.

(** A string made of decimal digits only. *)
Definition all_digits (s : string) : Prop :=
  Forall (λ c, is_Some (decimal_digit c)) (String.list_ascii_of_string s).

(** The two stages of [parseInt] after the white space: the sign, then the
    digits with their base. *)
Definition signed (s1 : string) : Z * string :=
  match s1 with
  | String "-" r => (-1, r)
  | String "+" r => (1, r)
  | _ => (1, s1)
  end.

Definition unsigned (s2 : string) : option Z :=
  match s2 with
  | String "0" (String "x" r) | String "0" (String "X" r) => digits 16 hex_digit r None
  | _ => digits 10 decimal_digit s2 None
  end.
End ParseIntStages.

(** The store and the responses. *)
Module Invariant.
Import Js ExpressValidator.

(** No two stored records share an id. *)
Definition unique_ids (st : Api.Store) : Prop := NoDup (User.id <$> Api.users st).

(** No two stored records share an email that is truthy. *)
Definition unique_truthy_emails (st : Api.Store) : Prop :=
  NoDup (filter (λ v, truthy v = true) (User.email <$> Api.users st)).

(** The number of creates and of deletes that succeeded in a log. *)
Definition creates (log : list (Api.Request * Api.Response)) : nat :=
  length (omap Api.created_id log).
Definition deletes (log : list (Api.Request * Api.Response)) : nat :=
  length (omap Api.deleted_id log).

(** 1 for [Some], 0 for [None]. *)
Definition one {A} (o : option A) : nat := match o with Some _ => 1 | None => 0 end.

Section Effects.
Variable isEmail : string → bool.
Variable normalizeEmail : string → Value.

(** The four ways a request leaves the store. A created record has an
    email no stored record has; an updated record keeps its id, and its
    email is the old one or a normalized address that [isEmail] accepted,
    which, when truthy and new, no stored record has. *)
Inductive Effect (st : Api.Store) : Api.Request * Api.Response → Api.Store → Prop :=
| Untouched req res :
    Api.status res ≠ 201 → Api.created_id (req, res) = None →
    Api.deleted_id (req, res) = None →
    (∀ id body, req = Api.PUT_user id body → Api.status res ≠ 200) →
    (∀ id, req = Api.DELETE_user id → Api.status res ≠ 200) →
    Effect st (req, res) st
| Created body u :
    User.id u = Api.nextId st →
    Forall (λ y, User.email y ≠ User.email u) (Api.users st) →
    Effect st
      (Api.POST_users body,
       {| Api.status := 201; Api.json := Api.UserData (Some "User created successfully") u |})
      {| Api.users := Api.users st ++ [u]; Api.nextId := Api.nextId st + 1 |}
| Updated id body i u u' :
    Api.users st !! i = Some u → User.id u' = User.id u →
    (User.email u' = User.email u
     ∨ ∃ s, isEmail s = true ∧ User.email u' = normalizeEmail s) →
    (truthy (User.email u') = true → User.email u' ≠ User.email u →
     Forall (λ y, User.email y ≠ User.email u') (Api.users st)) →
    Effect st
      (Api.PUT_user id body,
       {| Api.status := 200; Api.json := Api.UserData (Some "User updated successfully") u' |})
      {| Api.users := <[i := u']> (Api.users st); Api.nextId := Api.nextId st |}
| Deleted id i u :
    Api.users st !! i = Some u →
    Effect st
      (Api.DELETE_user id,
       {| Api.status := 200; Api.json := Api.UserData (Some "User deleted successfully") u |})
      {| Api.users := delete i (Api.users st); Api.nextId := Api.nextId st |}.
End Effects.

End Invariant.

(** Reading back what [JSON.stringify] escaped. *)
Module Reader.
Import Js.

Definition unhex (c : ascii) : N :=
  let n := N_of_ascii c in if (n <? 58)%N then n - 48 else n - 87.

(** A reader for the head of an escaped string: the code unit whose
    escape the string starts with, and what follows it. *)
Definition unescape (s : string) : option (ascii * string) :=
  match s with
  | EmptyString => None
  | String c rest =>
      if (N_of_ascii c =? 34)%N then None
      else if (N_of_ascii c =? 92)%N then
        match rest with
        | String d rest' =>
            let n := N_of_ascii d in
            if (n =? 98)%N then Some (ascii_of_N 8, rest')
            else if (n =? 116)%N then Some (ascii_of_N 9, rest')
            else if (n =? 110)%N then Some (ascii_of_N 10, rest')
            else if (n =? 102)%N then Some (ascii_of_N 12, rest')
            else if (n =? 114)%N then Some (ascii_of_N 13, rest')
            else if (n =? 117)%N then
              match rest' with
              | String _ (String _ (String h (String l rest''))) =>
                  Some (ascii_of_N (16 * unhex h + unhex l), rest'')
              | _ => None
              end
            else Some (d, rest')
        | EmptyString => None
        end
      else Some (c, rest)
  end.
End Reader.

(** ** Lemmas on the validation chains *)

Section ChainFacts.
Import Js ExpressValidator Chains.
Variable isEmail : string → bool.
Variable normalizeEmail : string → Value.

Lemma prop_insert_eq (body : Obj) k v : prop (<[k := v]> body) k = v.
Proof. unfold prop. by rewrite lookup_insert_eq. Qed.

Lemma prop_insert_ne (body : Obj) k k' v :
  k ≠ k' → prop (<[k := v]> body) k' = prop body k'.
Proof. intros. unfold prop. by rewrite lookup_insert_ne. Qed.

(** The chain ran: its field holds the sanitized value and the other
    properties are those of the body. *)
Ltac written_back :=
  rewrite ?app_nil_r, prop_insert_eq; (split_and!; [done..|]);
  let k := fresh "k" in let Hk := fresh "Hk" in
  intros k Hk; by rewrite prop_insert_ne.

Lemma name_chain_effect opt :
  chain_effect
    {| field := "name"; optional := opt;
       items := [trim; withMessage (isLength 2 50) Api.name_message] |}
    (name_sanitized opt) (name_errors opt).
Proof.
  intros body errs. unfold run_chain, name_sanitized, name_errors, name_ok, skipped.
  cbn -[isLength Js.trim toString].
  destruct (opt && negb (defined (prop body "name"))); cbn -[isLength Js.trim toString].
  { rewrite app_nil_r. done. }
  change (toString (Str ?s)) with s.
  destruct (isLength 2 50 _); cbn -[isLength Js.trim toString]; written_back.
Qed.

Lemma email_chain_effect opt :
  chain_effect
    {| field := "email"; optional := opt;
       items := [withMessage isEmail Api.email_message; sanitizer normalizeEmail] |}
    (email_sanitized normalizeEmail opt) (email_errors isEmail opt).
Proof.
  intros body errs. unfold run_chain, email_sanitized, email_errors, email_ok, skipped.
  cbn -[toString].
  destruct (opt && negb (defined (prop body "email"))); cbn -[toString].
  { rewrite app_nil_r. done. }
  destruct (isEmail _); cbn -[toString]; written_back.
Qed.

Lemma role_chain_effect :
  chain_effect
    {| field := "role"; optional := true;
       items := [withMessage (isIn ["user"; "admin"]) Api.role_message] |}
    id role_errors.
Proof.
  intros body errs. unfold run_chain, role_errors, role_ok, skipped.
  cbn -[isIn toString].
  destruct (negb (defined (prop body "role"))); cbn -[isIn toString].
  { rewrite app_nil_r. done. }
  destruct (isIn _ _); cbn -[isIn toString]; written_back.
Qed.

(** The three chains of a route, one after the other. *)
Lemma run_chains_spec opt body :
  let r := run_chains (chains isEmail normalizeEmail opt) body in
  r.2 = errors isEmail opt body ∧
  prop r.1 "name" = name_sanitized opt (prop body "name") ∧
  prop r.1 "email" = email_sanitized normalizeEmail opt (prop body "email") ∧
  prop r.1 "role" = prop body "role".
Proof.
  assert (∀ r : Obj * list ValidationError, r = (r.1, r.2)) as Hpair by (by intros []).
  pose proof (name_chain_effect opt body []) as (En & Sn & Fn).
  set (r1 := run_chain _ (body, [])) in *.
  pose proof (email_chain_effect opt r1.1 r1.2) as (Ee & Se & Fe).
  set (r2 := run_chain _ (r1.1, r1.2)) in *.
  pose proof (role_chain_effect r2.1 r2.2) as (Er & Sr & Fr).
  set (r3 := run_chain _ (r2.1, r2.2)) in *.
  assert (run_chains (chains isEmail normalizeEmail opt) body = r3) as ->.
  { subst r3 r2 r1. rewrite <- !Hpair. by destruct opt. }
  cbn [field] in *. unfold errors.
  rewrite Er, Ee, En, Sr. unfold id.
  rewrite (Fr "name"), (Fr "email"), (Fe "name"), (Fe "role"), Se, Sn,
    (Fn "email"), (Fn "role") by done.
  by rewrite app_nil_l, <- app_assoc.
Qed.
End ChainFacts.

(** ** The read-only routes *)

Section ReadRoutes.
Import Js ExpressValidator.

Lemma slice0_prefix {A} (l : list A) e : Js.slice0 l e `prefix_of` l.
Proof.
  destruct e as [e|]; simpl; [|apply prefix_nil].
  destruct (e <? 0); apply prefix_take.
Qed.

Lemma slice0_length {A} (l : list A) (e : Z) :
  0 ≤ e → (length (Js.slice0 l (Some e)) ≤ Z.to_nat e)%nat.
Proof.
  intros He. simpl. destruct (Z.ltb_spec e 0); [lia|].
  rewrite length_take. lia.
Qed.

Example get_user_abc : Api.status (Api.get_user Api.initial "abc") = 400.
Proof. reflexivity. Qed.

Example get_user_999 : Api.status (Api.get_user Api.initial "999") = 404.
Proof. reflexivity. Qed.

Example get_user_2 :
  ∃ u, Api.get_user Api.initial " 2" = {| Api.status := 200; Api.json := Api.UserData None u |}
       ∧ User.id u = 2 ∧ User.name u = Str "Test User".
Proof. eexists. split; [reflexivity|]. done. Qed.

(** The handler on the id it receives. GET /users/:id answers 400 when
    the id does not parse as
    an integer ([parseInt] gives [NaN]), 404 when it parses and no record
    has that id, and otherwise 200 with the first record that has it. *)
Theorem get_user_status (st : Api.Store) (id : string) :
  (parseInt (Str id) = None → Api.get_user st id = Api.invalid_id
     ∧ Api.status (Api.get_user st id) = 400) ∧
  (∀ n, parseInt (Str id) = Some n →
     Forall (λ u, User.id u ≠ n) (Api.users st) →
     Api.get_user st id = Api.not_found ∧ Api.status (Api.get_user st id) = 404) ∧
  (∀ n, parseInt (Str id) = Some n →
     Exists (λ u, User.id u = n) (Api.users st) →
     ∃ i u, Api.users st !! i = Some u ∧ User.id u = n ∧
       (∀ j y, Api.users st !! j = Some y → (j < i)%nat → User.id y ≠ n) ∧
       Api.get_user st id = {| Api.status := 200; Api.json := Api.UserData None u |}).
Proof.
  unfold Api.get_user. split_and!.
  - intros ->. done.
  - intros n -> Hall.
    assert (list_find (λ u, User.id u = n) (Api.users st) = None) as ->; [|done].
    by apply list_find_None.
  - intros n -> Hex. apply Exists_exists in Hex as (u & Hin & Hu).
    destruct (list_find_elem_of (λ u, User.id u = n) _ u Hin Hu) as [[i y] Hfind].
    rewrite Hfind. apply list_find_Some in Hfind as (Hi & Hy & Hfirst).
    exists i, y. split_and!; try done.
Qed.

Example get_users_admin :
  ∃ admin, Api.get_users Api.initial {[ "role" := Str "admin" ]}
           = {| Api.status := 200; Api.json := Api.UserList [admin] 1 1 |}
           ∧ User.id admin = 1.
Proof. eexists. split; reflexivity. Qed.

(** An empty role parameter ([GET /users?role=]) is falsy: nothing is
    filtered, the records returned do not have the role asked for, and
    [total] is not the number of records with that role. *)
Lemma get_users_empty_role_unfiltered :
  ({[ "role" := Str "" ]} : Obj) !! "role" = Some (Str "") ∧
  Api.get_users Api.initial {[ "role" := Str "" ]}
    = {| Api.status := 200; Api.json := Api.UserList (Api.users Api.initial) 2 2 |} ∧
  ¬ Forall (λ u, User.role u = Str "") (Api.users Api.initial) ∧
  length (filter (λ u, User.role u = Str "") (Api.users Api.initial)) = 0%nat.
Proof.
  split_and!; [reflexivity..| |reflexivity].
  intros H. by apply Forall_cons_1 in H as [? _].
Qed.

(** C8, as the code has it. GET /users answers 200 with [data], [total]
    and [returned] such that: [data] is the filtered list cut by
    [slice(0, parseInt(limit))] and [returned] is its length; with a
    non-empty (truthy) role parameter the filtered list holds exactly the
    stored records with that role, so every record of [data] has that role
    and [total] counts them; with no role parameter, or an empty one, the
    filtered list is the whole collection; with no limit parameter at most
    50 records are returned. *)
Theorem get_users_filter_and_limit (st : Api.Store) (query : Obj) :
  ∃ data total returned,
    Api.get_users st query
      = {| Api.status := 200; Api.json := Api.UserList data total returned |} ∧
    returned = length data ∧
    (truthy (prop query "role") = true →
       Forall (λ u, User.role u = prop query "role") data ∧
       total = length (filter (λ u, User.role u = prop query "role") (Api.users st)) ∧
       data `prefix_of` filter (λ u, User.role u = prop query "role") (Api.users st)) ∧
    (truthy (prop query "role") = false →
       total = length (Api.users st) ∧ data `prefix_of` Api.users st) ∧
    (∀ s, prop query "limit" = Str s →
       data = slice0 (if truthy (prop query "role")
                      then filter (λ u, User.role u = prop query "role") (Api.users st)
                      else Api.users st) (parseInt (Str s))) ∧
    (prop query "limit" = Undefined →
       data = take 50 (if truthy (prop query "role")
                       then filter (λ u, User.role u = prop query "role") (Api.users st)
                       else Api.users st) ∧
       (length data ≤ 50)%nat).
Proof.
  unfold Api.get_users.
  set (role := prop query "role"). set (limit := prop query "limit").
  set (filtered := if truthy role then _ else _).
  eexists _, _, _. split; [reflexivity|]. split; [done|].
  split_and!.
  - intros Hr. subst filtered. rewrite Hr. split_and!; [|done|apply slice0_prefix].
    eapply Forall_forall. intros u Hu.
    eapply elem_of_prefix in Hu; [|apply slice0_prefix].
    by apply list_elem_of_filter in Hu as [? _].
  - intros Hr. subst filtered. rewrite Hr. split; [done|apply slice0_prefix].
  - intros s Hs. rewrite Hs. done.
  - intros Hl. rewrite Hl.
    change (parseInt (Num 50)) with (Some 50). split; [done|].
    by apply (slice0_length filtered 50).
Qed.

(** C10. A limit parameter that [parseInt] turns into [NaN] is not
    rejected and does not fall back to 50: the answer is 200 with
    [success: true], an empty [data], [returned] 0, and [total] still the
    count after the role filter. *)
Theorem get_users_nan_limit (st : Api.Store) (query : Obj) (s : string) :
  query !! "limit" = Some (Str s) →
  parseInt (Str s) = None →
  ∃ total,
    Api.get_users st query
      = {| Api.status := 200; Api.json := Api.UserList [] total 0 |} ∧
    Api.success (Api.get_users st query) = true ∧
    (truthy (prop query "role") = true →
       total = length (filter (λ u, User.role u = prop query "role") (Api.users st))) ∧
    (truthy (prop query "role") = false → total = length (Api.users st)).
Proof.
  intros Hq Hnan. unfold Api.success, Api.get_users.
  assert (prop query "limit" = Str s) as -> by (unfold prop; by rewrite Hq).
  rewrite Hnan. simpl. eexists. split; [reflexivity|]. split; [done|].
  split; intros ->; done.
Qed.

Lemma get_users_nan_limit_witness :
  ∃ total,
    Api.get_users Api.initial {[ "limit" := Str "abc" ]}
      = {| Api.status := 200; Api.json := Api.UserList [] total 0 |} ∧
    Api.success (Api.get_users Api.initial {[ "limit" := Str "abc" ]}) = true ∧
    (truthy (prop ({[ "limit" := Str "abc" ]} : Obj) "role") = true →
       total = length (filter (λ u, User.role u = prop ({[ "limit" := Str "abc" ]} : Obj) "role")
                         (Api.users Api.initial))) ∧
    (truthy (prop ({[ "limit" := Str "abc" ]} : Obj) "role") = false →
       total = length (Api.users Api.initial)).
Proof.
  apply (get_users_nan_limit Api.initial {[ "limit" := Str "abc" ]} "abc");
    reflexivity.
Defined.
End ReadRoutes.

(** ** The id of a path, from the URL *)

Section PathSegment.
Import Js.

Example decode_examples :
  Uri.decodeURIComponent "2" = Uri.Text "2" ∧
  Uri.decodeURIComponent "%32abc" = Uri.Text "2abc" ∧
  Uri.decodeURIComponent "caf%C3%A9" = Uri.Text ("caf" +:+ String (ascii_of_nat 233) "") ∧
  Uri.decodeURIComponent "%E2%82%AC" = Uri.Wide ∧
  Uri.decodeURIComponent "%C0%80" = Uri.URIError ∧
  Uri.decodeURIComponent "%E0%A4%A" = Uri.URIError.
Proof. vm_compute. done. Qed.

(** A [%] at the end of a string makes [decodeURIComponent] throw,
    wherever the decoder stands. *)
Lemma decode_trailing_percent s : ∀ st out,
  Uri.decode_from st (s +:+ "%") out = Uri.URIError.
Proof.
  induction s as [|c s IH]; intros st out.
  - by destruct st.
  - change (String c s +:+ "%") with (String c (s +:+ "%")). cbn [Uri.decode_from].
    destruct st as [|seq|seq h|q].
    + by destruct (Ascii.eqb c "%").
    + by destruct (hex_digit c).
    + destruct (hex_digit c); [|done]. by destruct (Uri.octet _ _ _) as [[]|].
    + by destruct (Ascii.eqb c "%").
Qed.

(** Every path segment that ends in [%] is answered 500, whatever the
    store. *)
Lemma trailing_percent_is_500 st s :
  Api.get_user_route st (s +:+ "%") = Some Api.error_middleware.
Proof.
  unfold Api.get_user_route, Uri.decodeURIComponent.
  by rewrite decode_trailing_percent.
Qed.

(** A segment that decodes is answered by the handler. *)
Lemma decoded_segment_is_handled st segment id :
  Uri.decodeURIComponent segment = Uri.Text id →
  Api.get_user_route st segment = Some (Api.get_user st id).
Proof. unfold Api.get_user_route. by intros ->. Qed.

(** An id that starts with a character that is neither white space, nor a
    sign, nor a digit, like [abc], is answered 400 by the handler. *)
Lemma get_user_no_digit st c u :
  is_space c = false → decimal_digit c = None → c ≠ "-"%char → c ≠ "+"%char →
  Api.get_user st (String c u) = Api.invalid_id.
Proof.
  intros Hsp Hd Hm Hp. unfold Api.get_user, parseInt, parseInt_string.
  cbn [ToString ltrim]. rewrite Hsp.
  destruct c as [b0 b1 b2 b3 b4 b5 b6 b7].
  destruct b0, b1, b2, b3, b4, b5, b6, b7;
    try done; try (by cbn in Hd); cbn [digits]; by rewrite ?Hd.
Qed.
End PathSegment.

(** C6. [GET /users/%E0%A4%A]: the segment is no integer, and the answer
    is 500, from the error middleware, not 400: Express cannot decode the
    segment and the handler, which answers 400 to [abc], is never called.
    The segments that decode get 400, 404 and 200 as stated. *)
Theorem malformed_escape_is_500 :
  Api.get_user_route Api.initial "%E0%A4%A" = Some Api.error_middleware ∧
  Api.status Api.error_middleware = 500 ∧
  Js.parseInt (Js.Str "%E0%A4%A") = None ∧
  Api.get_user_route Api.initial "abc" = Some Api.invalid_id ∧
  Api.get_user_route Api.initial "999" = Some Api.not_found ∧
  Api.get_user_route Api.initial "2"
  = Some {| Api.status := 200;
            Api.json := Api.UserData None
              {| User.id := 2; User.name := Js.Str "Test User";
                 User.email := Js.Str "test@example.com"; User.role := Js.Str "user";
                 User.createdAt := None; User.updatedAt := None |} |}.
Proof. vm_compute. done. Qed.

(** ** The response cache *)

Section CacheFacts.
Context {V : Type}.
Implicit Types (c : ApiCache.t V) (key : string) (now : Z).

Lemma cache_get_miss c now key :
  ApiCache.cache c !! key = None → ApiCache.get c now key = (None, c).
Proof. unfold ApiCache.get. by intros ->. Qed.

Lemma cache_get_fresh c now key item :
  ApiCache.cache c !! key = Some item →
  now - ApiCache.timestamp item ≤ ApiCache.ttl c →
  ApiCache.get c now key = (Some (ApiCache.value item), c).
Proof.
  unfold ApiCache.get. intros -> Hage.
  destruct (Z.ltb_spec (ApiCache.ttl c) (now - ApiCache.timestamp item)); [lia|done].
Qed.

Lemma cache_get_stale c now key item :
  ApiCache.cache c !! key = Some item →
  ApiCache.ttl c < now - ApiCache.timestamp item →
  ApiCache.get c now key = (None, ApiCache.delete c key).
Proof.
  unfold ApiCache.get. intros -> Hage.
  destruct (Z.ltb_spec (ApiCache.ttl c) (now - ApiCache.timestamp item)); [done|lia].
Qed.

Lemma cache_set_lookup c now key v :
  ApiCache.cache (ApiCache.set c now key v) !! key
  = Some {| ApiCache.value := v; ApiCache.timestamp := now |}.
Proof. apply lookup_insert_eq. Qed.

(** C3, as the code has it. [get(key)] misses on a key that is not stored;
    for a stored entry it returns the value, leaving the cache as it is,
    exactly when [now - timestamp <= ttl], and otherwise (age strictly
    above [ttl]) evicts the entry and misses. An entry written by
    [set] at [t] is therefore still served at [now = t + ttl]. *)
Theorem cache_get_ttl c now key :
  (ApiCache.cache c !! key = None → ApiCache.get c now key = (None, c)) ∧
  (∀ item, ApiCache.cache c !! key = Some item →
     (now - ApiCache.timestamp item ≤ ApiCache.ttl c ↔
        ApiCache.get c now key = (Some (ApiCache.value item), c)) ∧
     (ApiCache.ttl c < now - ApiCache.timestamp item ↔
        ApiCache.get c now key = (None, ApiCache.delete c key)
        ∧ ApiCache.cache (ApiCache.get c now key).2 !! key = None)) ∧
  (∀ t v, now - t ≤ ApiCache.ttl c ↔
     (ApiCache.get (ApiCache.set c t key v) now key).1 = Some v).
Proof.
  split_and!.
  - apply cache_get_miss.
  - intros item Hitem. split.
    + split; [by apply cache_get_fresh|].
      intros Hget. destruct (Z.le_gt_cases (now - ApiCache.timestamp item) (ApiCache.ttl c))
        as [|Hlt]; [done|].
      rewrite (cache_get_stale _ _ _ _ Hitem) in Hget; [done|lia].
    + split.
      * intros Hlt. rewrite (cache_get_stale _ _ _ _ Hitem Hlt). split; [done|].
        apply lookup_delete_eq.
      * intros [Hget _].
        destruct (Z.le_gt_cases (now - ApiCache.timestamp item) (ApiCache.ttl c))
          as [Hle|Hlt]; [|lia].
        by rewrite (cache_get_fresh _ _ _ _ Hitem Hle) in Hget.
  - intros t v. pose proof (cache_set_lookup c t key v) as Hset. split.
    + intros Hle. by rewrite (cache_get_fresh _ _ _ _ Hset).
    + intros Hget.
      destruct (Z.le_gt_cases (now - t) (ApiCache.ttl c)) as [|Hlt]; [done|].
      rewrite (cache_get_stale _ _ _ _ Hset) in Hget; [done|simpl; lia].
Qed.
End CacheFacts.

(** At an age of exactly [ttl] the entry is served, not evicted: the test of
    the repository's cache (ttl 1000) read at 1000 ms after the write. *)
Lemma cache_get_at_ttl_is_hit :
  let c := ApiCache.set (ApiCache.new (Some 1000)) 0 "test-key" "data" in
  1000 - 0 = ApiCache.ttl c ∧
  ApiCache.get c 1000 "test-key" = (Some "data", c).
Proof. split; reflexivity. Qed.

Example cache_get_after_ttl :
  let c := ApiCache.set (ApiCache.new (Some 1000)) 0 "test-key" "data" in
  ApiCache.get c 1100 "test-key" = (None, ApiCache.new (Some 1000)).
Proof. vm_compute. reflexivity. Qed.

(** ** The cached client *)

Section CachedClientFacts.
Import Js ExpressValidator ApiClient CachedApiClient.
Implicit Types (c : CachedApiClient.t) (k : Call) (net : Outcome).






(** The same on a concrete run: a list fetched at 0 and stored at 5 is
    served from the cache at 20000 after a rejected update; after a create
    that succeeded the next call goes to the network. *)
Example cached_then_invalidated :
  let listing := Api.UserList (Api.users Api.initial) 2 2 in
  let created := Api.UserData None
    {| User.id := 3; User.name := Str "Ann Lee"; User.email := Str "ann@example.com";
       User.role := Str "user"; User.createdAt := Some Sample.now;
       User.updatedAt := None |} in
  let ann := Sample.body (Str "Ann Lee") (Str "ann@example.com") Undefined in
  let '(r1, used1, c1) := getUsers new [] 0 5 (Resolved listing) in
  let '(r2, used2, c2) := updateUser c1 (Num 0) ann (Resolved created) in
  let '(r3, used3, c3) := getUsers c2 [] 20000 20005 (Resolved listing) in
  let '(r4, used4, c4) := createUser c3 ann (Resolved created) in
  let '(r5, used5, c5) := getUsers c4 [] 20010 20015 (Resolved listing) in
  (used1, used2, used3, used4, used5) = (true, false, false, true, true) ∧
  r2 = Rejected ApiClient.invalid_id ∧ r3 = Resolved listing ∧
  ApiCache.cache c4 = ∅.
Proof. vm_compute. done. Qed.
End CachedClientFacts.

(** ** Calls that overlap *)

Section Overlap.
Import Js ExpressValidator ApiClient CachedApiClient.

(** [getUsers] is its two halves with nothing in between, and a mutation
    that sent its request is its second half. *)
Lemma getUsers_halves c filters now now' net :
  getUsers c filters now now' net
  = match getUsers_before c filters now with
    | (Some data, c1) => (Resolved data, false, c1)
    | (None, c1) =>
        let '(r, c2) := getUsers_after c1 filters now' net in (r, true, c2)
    end.
Proof.
  unfold getUsers, getUsers_before, getUsers_after, ApiClient.getUsers.
  destruct (ApiCache.get _ _ _) as [[data|] c1]; [done|]. by destruct net.
Qed.

Lemma mutation_halves c k net :
  (call c k net).1.2 = true → (∀ filters now now', k ≠ GetUsers filters now now') →
  call c k net = ((mutation_after c net).1, true, (mutation_after c net).2).
Proof.
  destruct k as [filters now now'|userData|id userData|id]; cbn [call]; intros Hused Hk.
  - by destruct (Hk filters now now').
  - unfold createUser, ApiClient.createUser in *.
    destruct (validateUserData _ _); [done|]. by destruct net.
  - unfold updateUser, ApiClient.updateUser in *.
    destruct (bad_id _); [done|]. destruct (validateUserData _ _); [done|]. by destruct net.
  - unfold deleteUser, ApiClient.deleteUser in *.
    destruct (bad_id _); [done|]. by destruct net.
Qed.
End Overlap.



(** ** The mutating routes *)

Section WriteRoutes.
Import Js ExpressValidator Chains.
Variable isEmail : string → bool.
Variable normalizeEmail : string → Value.

Abbreviation post_users := (Api.post_users isEmail normalizeEmail).
Abbreviation put_user := (Api.put_user isEmail normalizeEmail).
Abbreviation handle := (Api.handle isEmail normalizeEmail).
Abbreviation run := (Api.run isEmail normalizeEmail).

(** A route is its handler on the sanitized body when no chain
    complained, and the 400 of [handleValidationErrors] otherwise. *)
Lemma post_users_unfold st body now :
  post_users st body now
  = Api.handleValidationErrors
      (run_chains (Api.post_chains isEmail normalizeEmail) body).2 st
      (Api.post_users_handler st
         (run_chains (Api.post_chains isEmail normalizeEmail) body).1 now).
Proof. unfold Api.post_users. by destruct (run_chains _ _). Qed.

Lemma put_user_unfold st id body now :
  put_user st id body now
  = Api.handleValidationErrors
      (run_chains (Api.put_chains isEmail normalizeEmail) body).2 st
      (Api.put_user_handler st id
         (run_chains (Api.put_chains isEmail normalizeEmail) body).1 now).
Proof. unfold Api.put_user. by destruct (run_chains _ _). Qed.

Lemma handleValidationErrors_400 errors st next :
  errors ≠ [] →
  Api.handleValidationErrors errors st next
  = ({| Api.status := 400; Api.json := Api.Failure "Validation failed" (Some errors) |}, st).
Proof. by destruct errors. Qed.

(** C9. A PUT that answers 200 replaced one record, the first with the
    id of the path, by a record with the same [id] and [createdAt], with
    [updatedAt] stamped, and with [name], [email] and [role] kept unless
    the field is present in the request body, in which case it holds the
    body's value as the chains sanitized it; every other record, the
    length of the collection and [nextId] are as before. *)
Theorem put_user_frame st id body now res st' :
  put_user st id body now = (res, st') →
  Api.status res = 200 →
  ∃ i user updated,
    parseInt (Str id) = Some (User.id user) ∧
    Api.users st !! i = Some user ∧
    (∀ j y, Api.users st !! j = Some y → (j < i)%nat → User.id y ≠ User.id user) ∧
    res = {| Api.status := 200;
             Api.json := Api.UserData (Some "User updated successfully") updated |} ∧
    Api.users st' = <[i := updated]> (Api.users st) ∧
    Api.users st' !! i = Some updated ∧
    (∀ j, j ≠ i → Api.users st' !! j = Api.users st !! j) ∧
    length (Api.users st') = length (Api.users st) ∧
    Api.nextId st' = Api.nextId st ∧
    User.id updated = User.id user ∧
    User.createdAt updated = User.createdAt user ∧
    User.updatedAt updated = Some now ∧
    (prop body "name" = Undefined → User.name updated = User.name user) ∧
    (prop body "email" = Undefined → User.email updated = User.email user) ∧
    (prop body "role" = Undefined → User.role updated = User.role user) ∧
    (prop body "name" ≠ Undefined →
       User.name updated = Str (Js.trim (toString (prop body "name")))) ∧
    (prop body "email" ≠ Undefined →
       defined (normalizeEmail (toString (prop body "email"))) = true →
       User.email updated = normalizeEmail (toString (prop body "email"))) ∧
    (prop body "role" ≠ Undefined → User.role updated = prop body "role").
Proof.
  rewrite put_user_unfold.
  pose proof (run_chains_spec isEmail normalizeEmail true body) as (_ & Hn & He & Hr).
  cbn [chains] in *.
  destruct (run_chains _ body) as [body' errs]; cbn [fst snd] in *.
  destruct errs as [|e errs]; [|by intros [= <- <-]].
  unfold Api.handleValidationErrors, Api.put_user_handler.
  destruct (parseInt (Str id)) as [n|]; [|by intros [= <- <-]].
  destruct (list_find _ _) as [[i user]|] eqn:Hfind; [|by intros [= <- <-]].
  apply list_find_Some in Hfind as (Hi & <- & Hfirst).
  destruct (_ && _ && _); [by intros [= <- <-]|].
  intros [= <- <-] _. eexists i, user, _. cbn.
  assert (i < length (Api.users st))%nat by (by eapply lookup_lt_Some).
  split_and!; try done.
  - by apply list_lookup_insert_eq.
  - intros j Hj. by apply list_lookup_insert_ne.
  - apply length_insert.
  - intros Hu. rewrite Hn, Hu. done.
  - intros Hu. rewrite He, Hu. done.
  - intros Hu. rewrite Hr, Hu. done.
  - intros Hu. rewrite Hn. unfold name_sanitized, skipped.
    destruct (prop body "name"); done.
  - intros Hu Hd. rewrite He. unfold email_sanitized, skipped.
    destruct (prop body "email"); try done; cbn -[toString]; by rewrite Hd.
  - intros Hu. rewrite Hr. by destruct (prop body "role").
Qed.

(** *** Identifiers *)

Lemma ids_below_initial : Api.ids_below Api.initial.
Proof. repeat constructor. Qed.

(** A branch of a handler that answers without touching the store. *)
Ltac unchanged Hh := injection Hh as <- <-; split_and!; [done|lia|done..].

(** One request: the invariant is kept, the counter never decreases, a
    created record gets the counter's value, which then moves past it,
    and a deleted record had an id below the counter. *)
Lemma handle_ids st now req res st' :
  handle st now req = (res, st') →
  Api.ids_below st →
  Api.ids_below st' ∧ Api.nextId st ≤ Api.nextId st' ∧
  (∀ a, Api.created_id (req, res) = Some a →
     a = Api.nextId st ∧ Api.nextId st' = a + 1) ∧
  (∀ d, Api.deleted_id (req, res) = Some d → d < Api.nextId st).
Proof.
  intros Hh Hinv. destruct req as [query|id|body|id body|id]; cbn [Api.handle] in Hh.
  - unchanged Hh.
  - unchanged Hh.
  - rewrite post_users_unfold in Hh.
    destruct (run_chains _ body) as [body' errs]; cbn [fst snd] in Hh.
    destruct errs as [|e errs]; cbn in Hh.
    2: { unchanged Hh. }
    unfold Api.post_users_handler in Hh.
    destruct (list_find _ _) as [[i y]|].
    { unchanged Hh. }
    injection Hh as <- <-. cbn. split_and!; [|lia|by intros a [= <-]|done].
    unfold Api.ids_below. cbn. apply Forall_app. split.
    + eapply Forall_impl; [exact Hinv|]. cbn. intros; lia.
    + repeat constructor. cbn. lia.
  - rewrite put_user_unfold in Hh.
    destruct (run_chains _ body) as [body' errs]; cbn [fst snd] in Hh.
    destruct errs as [|e errs]; cbn in Hh.
    2: { unchanged Hh. }
    unfold Api.put_user_handler in Hh.
    destruct (parseInt (Str id)) as [n|].
    2: { unchanged Hh. }
    destruct (list_find _ _) as [[i user]|] eqn:Hfind.
    2: { unchanged Hh. }
    destruct (_ && _ && _).
    { unchanged Hh. }
    injection Hh as <- <-. cbn. split_and!; [|lia|done..].
    apply list_find_Some in Hfind as (Hi & _ & _).
    unfold Api.ids_below. cbn. apply Forall_insert; [done|]. cbn.
    eapply (Forall_lookup_1 _ _ _ _ Hinv Hi).
  - cbn in Hh. unfold Api.delete_user in Hh.
    destruct (parseInt (Str id)) as [n|].
    2: { unchanged Hh. }
    destruct (list_find _ _) as [[i user]|] eqn:Hfind.
    2: { unchanged Hh. }
    injection Hh as <- <-. cbn. split_and!; [|lia|done|].
    + unfold Api.ids_below. cbn. by apply Forall_delete.
    + intros d [= <-]. apply list_find_Some in Hfind as (Hi & _ & _).
      eapply (Forall_lookup_1 _ _ _ _ Hinv Hi).
Qed.

(** A whole run, by induction on the requests. *)
Lemma run_ids reqs : ∀ st log st',
  run st reqs = (log, st') →
  Api.ids_below st →
  Api.ids_below st' ∧ Api.nextId st ≤ Api.nextId st' ∧
  (∀ j e a, log !! j = Some e → Api.created_id e = Some a →
     Api.nextId st ≤ a < Api.nextId st' ∧
     (∀ i e' b, (i < j)%nat → log !! i = Some e' →
        Api.created_id e' = Some b → b < a) ∧
     (∀ i e' d, (i < j)%nat → log !! i = Some e' →
        Api.deleted_id e' = Some d → d < a)) ∧
  (∀ j e d, log !! j = Some e → Api.deleted_id e = Some d → d < Api.nextId st').
Proof.
  induction reqs as [|[now req] reqs IH]; intros st log st' Hrun Hinv.
  { injection Hrun as <- <-. split_and!; [done|lia|done..]. }
  cbn [Api.run] in Hrun.
  destruct (handle st now req) as [res st1] eqn:Hh.
  destruct (run st1 reqs) as [log1 st2] eqn:Hrun1.
  injection Hrun as <- <-.
  destruct (handle_ids _ _ _ _ _ Hh Hinv) as (Hinv1 & Hle1 & Hcr1 & Hdel1).
  destruct (IH _ _ _ Hrun1 Hinv1) as (Hinv2 & Hle2 & Hcr2 & Hdel2).
  split_and!; [done|lia|..].
  - intros [|j] e a Hj Ha; cbn in Hj.
    + injection Hj as <-. destruct (Hcr1 _ Ha) as [-> Hnext].
      split; [lia|split; intros; lia].
    + destruct (Hcr2 _ _ _ Hj Ha) as (Hrange & Hcr & Hdel).
      split; [lia|split].
      * intros [|i] e' b Hij Hi Hb; cbn in Hi.
        -- injection Hi as <-. destruct (Hcr1 _ Hb) as [-> ?]. lia.
        -- eapply Hcr; [|done..]. lia.
      * intros [|i] e' d Hij Hi Hd; cbn in Hi.
        -- injection Hi as <-. specialize (Hdel1 _ Hd). lia.
        -- eapply Hdel; [|done..]. lia.
  - intros [|j] e d Hj Hd; cbn in Hj.
    + injection Hj as <-. specialize (Hdel1 _ Hd). lia.
    + by eapply Hdel2.
Qed.

(** C5. In every run of requests from the initial store, the id returned
    by a successful create is greater than the ids of the seed records,
    greater than every id returned by an earlier create, and greater than
    (so different from) the id of every record deleted before it. *)
Theorem created_ids_increase reqs j e a :
  (run Api.initial reqs).1 !! j = Some e →
  Api.created_id e = Some a →
  Forall (λ u, User.id u < a) (Api.users Api.initial) ∧
  (∀ i e' b, (i < j)%nat → (run Api.initial reqs).1 !! i = Some e' →
     Api.created_id e' = Some b → b < a) ∧
  (∀ i e' d, (i < j)%nat → (run Api.initial reqs).1 !! i = Some e' →
     Api.deleted_id e' = Some d → d < a ∧ d ≠ a).
Proof.
  intros Hj Ha. destruct (run Api.initial reqs) as [log st'] eqn:Hrun.
  destruct (run_ids _ _ _ _ Hrun ids_below_initial) as (_ & _ & Hcr & _).
  destruct (Hcr _ _ _ Hj Ha) as (Hrange & Hcr' & Hdel'). cbn in *.
  split_and!; [|done|].
  - repeat constructor; cbn; lia.
  - intros i e' d Hij Hi Hd. specialize (Hdel' _ _ _ Hij Hi Hd). lia.
Qed.
(** *** Email uniqueness *)

(** A response other than 200 and 201 comes with the store as it was. *)
Lemma rejected_leaves_store st now req res st' :
  handle st now req = (res, st') →
  Api.status res ≠ 200 → Api.status res ≠ 201 → st' = st.
Proof.
  intros Hh H200 H201. destruct req as [query|id|body|id body|id]; cbn [Api.handle] in Hh.
  - by injection Hh as <- <-.
  - by injection Hh as <- <-.
  - rewrite post_users_unfold in Hh.
    destruct (run_chains _ body) as [body' errs]; cbn [fst snd] in Hh.
    destruct errs; cbn in Hh; [|by injection Hh as <- <-].
    unfold Api.post_users_handler in Hh.
    destruct (list_find _ _); injection Hh as <- <-; done.
  - rewrite put_user_unfold in Hh.
    destruct (run_chains _ body) as [body' errs]; cbn [fst snd] in Hh.
    destruct errs; cbn in Hh; [|by injection Hh as <- <-].
    unfold Api.put_user_handler in Hh.
    destruct (parseInt (Str id)); [|by injection Hh as <- <-].
    destruct (list_find _ _) as [[i user]|]; [|by injection Hh as <- <-].
    destruct (_ && _ && _); injection Hh as <- <-; done.
  - cbn in Hh. unfold Api.delete_user in Hh.
    destruct (parseInt (Str id)); [|by injection Hh as <- <-].
    destruct (list_find _ _) as [[i user]|]; injection Hh as <- <-; done.
Qed.

(** A request with a name too short is answered 400 whatever its email,
    for every [isEmail] and [normalizeEmail]. *)
Lemma post_short_name_400 st email now :
  Api.status (post_users st {[ "name" := Str "A"; "email" := email ]} now).1 = 400.
Proof.
  rewrite post_users_unfold.
  pose proof (run_chains_spec isEmail normalizeEmail false
                {[ "name" := Str "A"; "email" := email ]}) as (He & _).
  cbn [chains] in He. rewrite He. unfold errors.
  change (prop _ "name") with (Str "A").
  change (name_errors false (Str "A")) with
    [{| value := Str "A"; msg := Api.name_message; param := "name" |}].
  done.
Qed.

(** Where the duplicate check is made. It runs after validation
    and, for PUT, after the id checks. A POST that passes validation and
    whose normalized email is that of a stored record is answered 409. A
    PUT that passes validation, whose id names a stored record, and whose
    normalized email is truthy (a non-empty string), differs from the
    email of that record and is that of a stored record, is answered 409.
    In both cases the collection and [nextId] are exactly as before. *)
Theorem duplicate_email_conflict st now :
  (∀ body,
     (run_chains (Api.post_chains isEmail normalizeEmail) body).2 = [] →
     Exists (λ u, User.email u
                  = prop (run_chains (Api.post_chains isEmail normalizeEmail) body).1 "email")
       (Api.users st) →
     post_users st body now = (Api.email_exists, st) ∧
     Api.status (post_users st body now).1 = 409) ∧
  (∀ id body n i user,
     (run_chains (Api.put_chains isEmail normalizeEmail) body).2 = [] →
     parseInt (Str id) = Some n →
     list_find (λ u, User.id u = n) (Api.users st) = Some (i, user) →
     truthy (prop (run_chains (Api.put_chains isEmail normalizeEmail) body).1 "email")
       = true →
     User.email user
       ≠ prop (run_chains (Api.put_chains isEmail normalizeEmail) body).1 "email" →
     Exists (λ u, User.email u
                  = prop (run_chains (Api.put_chains isEmail normalizeEmail) body).1 "email")
       (Api.users st) →
     put_user st id body now = (Api.email_exists, st) ∧
     Api.status (put_user st id body now).1 = 409).
Proof.
  split.
  - intros body Hok Hdup. rewrite post_users_unfold, Hok.
    set (body' := (run_chains _ body).1) in *.
    unfold Api.handleValidationErrors, Api.post_users_handler.
    apply Exists_exists in Hdup as (u & Hin & Hu).
    destruct (list_find_elem_of (λ u, User.email u = prop body' "email") _ u Hin Hu)
      as [[j y] ->].
    done.
  - intros id body n i user Hok Hn Hfind Htruthy Hne Hdup.
    rewrite put_user_unfold, Hok.
    set (body' := (run_chains _ body).1) in *.
    unfold Api.handleValidationErrors, Api.put_user_handler.
    rewrite Hn, Hfind, Htruthy.
    apply Exists_exists in Hdup as (u & Hin & Hu).
    pose proof (list_find_elem_of (λ u, User.email u = prop body' "email") _ u Hin Hu)
      as Hsome.
    unfold strict_eq. rewrite bool_decide_eq_false_2 by done.
    rewrite bool_decide_eq_true_2 by done. done.
Qed.
End WriteRoutes.

Lemma put_user_frame_witness :
  ∃ i user updated,
    Api.users Api.initial !! i = Some user ∧
    (Api.put_user Sample.isEmail Sample.normalizeEmail Api.initial "2"
       {[ "name" := Js.Str " Updated Name " ]} Sample.now).1
    = {| Api.status := 200;
         Api.json := Api.UserData (Some "User updated successfully") updated |} ∧
    User.name updated = Js.Str "Updated Name" ∧
    User.email updated = User.email user.
Proof.
  destruct (put_user_frame Sample.isEmail Sample.normalizeEmail Api.initial "2"
              {[ "name" := Js.Str " Updated Name " ]} Sample.now
              (Api.put_user Sample.isEmail Sample.normalizeEmail Api.initial "2"
                 {[ "name" := Js.Str " Updated Name " ]} Sample.now).1
              (Api.put_user Sample.isEmail Sample.normalizeEmail Api.initial "2"
                 {[ "name" := Js.Str " Updated Name " ]} Sample.now).2)
    as (i & user & updated & _ & Hi & _ & Hres & _ & _ & _ & _ & _ & _ & _ & _
        & _ & He & _ & Hn & _).
  - vm_compute. reflexivity.
  - vm_compute. reflexivity.
  - exists i, user, updated.
    split_and!; [exact Hi|exact Hres|by apply Hn|by apply He].
Defined.

(** A POST whose email is that of a stored record, but whose name has one
    character, is answered 400, not 409; so is a PUT to an id that names
    no record answered 404. *)
Lemma duplicate_email_not_always_409 :
  let body : ExpressValidator.Obj :=
    {[ "name" := Js.Str "A"; "email" := Js.Str "admin@example.com" ]} in
  let dup : ExpressValidator.Obj := {[ "email" := Js.Str "admin@example.com" ]} in
  ExpressValidator.prop
    (ExpressValidator.run_chains
       (Api.post_chains Sample.isEmail Sample.normalizeEmail) body).1 "email"
    = Js.Str "admin@example.com" ∧
  Exists (λ u, User.email u = Js.Str "admin@example.com") (Api.users Api.initial) ∧
  Api.post_users Sample.isEmail Sample.normalizeEmail Api.initial body Sample.now
    = ({| Api.status := 400;
          Api.json := Api.Failure "Validation failed"
            (Some [{| ExpressValidator.value := Js.Str "A";
                      ExpressValidator.msg := Api.name_message;
                      ExpressValidator.param := "name" |}]) |}, Api.initial) ∧
  Api.put_user Sample.isEmail Sample.normalizeEmail Api.initial "999" dup Sample.now
    = (Api.not_found, Api.initial).
Proof.
  split_and!; [vm_compute; reflexivity| |vm_compute; reflexivity..].
  apply Exists_cons_hd. reflexivity.
Qed.

Lemma duplicate_email_conflict_witness :
  let ann : ExpressValidator.Obj :=
    {[ "name" := Js.Str "Ann Lee"; "email" := Js.Str "Admin@Example.com" ]} in
  let dup : ExpressValidator.Obj := {[ "email" := Js.Str "admin@example.com" ]} in
  Api.post_users Sample.isEmail Sample.normalizeEmail Api.initial ann Sample.now
    = (Api.email_exists, Api.initial) ∧
  Api.put_user Sample.isEmail Sample.normalizeEmail Api.initial "2" dup Sample.now
    = (Api.email_exists, Api.initial).
Proof.
  pose proof (duplicate_email_conflict Sample.isEmail Sample.normalizeEmail
                Api.initial Sample.now) as [Hpost Hput].
  split.
  - apply Hpost; [vm_compute; reflexivity|].
    apply Exists_cons_hd. vm_compute. reflexivity.
  - apply (Hput "2" _ 2 1%nat
             {| User.id := 2; User.name := Js.Str "Test User";
                User.email := Js.Str "test@example.com"; User.role := Js.Str "user";
                User.createdAt := None; User.updatedAt := None |});
      [vm_compute; reflexivity..| |].
    + vm_compute. discriminate.
    + apply Exists_cons_hd. vm_compute. reflexivity.
Defined.

(** C1. The duplicate check of PUT is skipped for a falsy email. With a
    [normalizeEmail] that gives [false] for [+tag@gmail.com], as
    validator.js does, two updates with that address are both answered 200
    and leave two records with the email [false]: the second update sets
    an email that another record holds and is not answered 409. The check
    of POST has no such guard: a create with the same address is answered
    409 and changes nothing. *)
Theorem put_falsy_email_duplicates :
  let body : ExpressValidator.Obj := {[ "email" := Js.Str "+tag@gmail.com" ]} in
  let put := Api.put_user Sample.isEmail Sample.normalizeEmail_or_false in
  let r1 := put Api.initial "1" body Sample.now in
  let r2 := put r1.2 "2" body Sample.now in
  let r3 := Api.post_users Sample.isEmail Sample.normalizeEmail_or_false r2.2
              (<[ "name" := Js.Str "Ann Lee" ]> body) Sample.now in
  Sample.isEmail "+tag@gmail.com" = true ∧
  Sample.normalizeEmail_or_false "+tag@gmail.com" = Js.Bool false ∧
  Api.status r1.1 = 200 ∧ Api.status r2.1 = 200 ∧
  User.email <$> Api.users r2.2 = [Js.Bool false; Js.Bool false] ∧
  r3 = (Api.email_exists, r2.2).
Proof. vm_compute. done. Qed.

(** The same for every validator: an address that [isEmail] accepts and
    [normalizeEmail] turns into a falsy value is stored by PUT without a
    look at the other records. *)
Lemma put_falsy_email_unchecked isEmail normalizeEmail st id n i user s now :
  Js.parseInt (Js.Str id) = Some n →
  list_find (λ u, User.id u = n) (Api.users st) = Some (i, user) →
  isEmail s = true → Js.truthy (normalizeEmail s) = false →
  Api.put_user isEmail normalizeEmail st id {[ "email" := Js.Str s ]} now
  = ({| Api.status := 200;
        Api.json := Api.UserData (Some "User updated successfully")
          {| User.id := User.id user; User.name := User.name user;
             User.email := (if Js.defined (normalizeEmail s) then normalizeEmail s
                            else User.email user);
             User.role := User.role user; User.createdAt := User.createdAt user;
             User.updatedAt := Some now |} |},
     {| Api.users :=
          <[i := {| User.id := User.id user; User.name := User.name user;
                    User.email := (if Js.defined (normalizeEmail s) then normalizeEmail s
                                   else User.email user);
                    User.role := User.role user; User.createdAt := User.createdAt user;
                    User.updatedAt := Some now |}]> (Api.users st);
        Api.nextId := Api.nextId st |}).
Proof.
  intros Hid Hfind Hs Hfalsy. rewrite put_user_unfold.
  pose proof (run_chains_spec isEmail normalizeEmail true {[ "email" := Js.Str s ]})
    as (Herrs & Hn & He & Hr).
  cbn [Chains.chains] in *. rewrite Herrs.
  set (body' := (ExpressValidator.run_chains _ _).1) in *.
  assert (ExpressValidator.prop ({[ "email" := Js.Str s ]} : ExpressValidator.Obj) "email"
          = Js.Str s) as Pe by (unfold ExpressValidator.prop; by rewrite lookup_singleton_eq).
  assert (ExpressValidator.prop ({[ "email" := Js.Str s ]} : ExpressValidator.Obj) "name"
          = Js.Undefined) as Pn
    by (unfold ExpressValidator.prop; by rewrite lookup_singleton_ne).
  assert (ExpressValidator.prop ({[ "email" := Js.Str s ]} : ExpressValidator.Obj) "role"
          = Js.Undefined) as Pr
    by (unfold ExpressValidator.prop; by rewrite lookup_singleton_ne).
  unfold Chains.errors. rewrite Pe, Pn, Pr in *.
  unfold Chains.name_errors, Chains.email_errors, Chains.role_errors, Chains.name_ok,
    Chains.email_ok, Chains.role_ok, Chains.skipped.
  cbn [Js.defined negb andb orb ExpressValidator.toString Js.ToString]. rewrite Hs.
  cbn [app Api.handleValidationErrors]. unfold Api.put_user_handler.
  rewrite Hid, Hfind, Hn, He, Hr.
  unfold Chains.name_sanitized, Chains.email_sanitized, Chains.skipped.
  cbn [Js.defined negb andb ExpressValidator.toString Js.ToString]. by rewrite Hfalsy.
Qed.

(** ** Client and server validation compared *)

Lemma pretty_N_go_head (x : N) : ∀ s,
  pretty_N_go x s = s ∨ ∃ d s', pretty_N_go x s = String (pretty_N_char d) s'.
Proof.
  induction (N.lt_wf_0 x) as [x _ IH]; intros s.
  assert (x = 0 ∨ 0 < x)%N as [->|Hpos] by lia; [by left|].
  rewrite pretty_N_go_step by done. right.
  destruct (IH (x `div` 10)%N (N.div_lt x 10 Hpos eq_refl)
              (String (pretty_N_char (x `mod` 10)) s)) as [->|Hd]; eauto.
Qed.

(** The decimal form of an integer starts with a digit or a minus sign. *)
Lemma pretty_Z_head (n : Z) :
  ∃ c s, pretty n = String c s ∧ (c = "-"%char ∨ ∃ d, c = pretty_N_char d).
Proof.
  assert (∀ p : positive, ∃ c s,
            pretty (N.pos p) = String c s ∧ ∃ d, c = pretty_N_char d) as Hpos.
  { intros p. unfold pretty, pretty_N. destruct (decide _) as [|_]; [done|].
    destruct (pretty_N_go_head (N.pos p) "") as [Heq|(d & s' & ->)]; [|by eauto].
    exfalso. revert Heq. rewrite pretty_N_go_step by done. intros Heq.
    destruct (pretty_N_go_head (N.pos p `div` 10)%N
                (String (pretty_N_char (N.pos p `mod` 10)) ""))
      as [Heq'|(d & s' & Heq')]; rewrite Heq' in Heq; done. }
  destruct n as [|p|p].
  - exists "0"%char, "". split; [done|]. right. by exists 0%N.
  - destruct (Hpos p) as (c & s & Hp & Hd). exists c, s. split; [done|by right].
  - exists "-"%char, (pretty (N.pos p)). split; [done|by left].
Qed.

Lemma pretty_Z_not_role (n : Z) : pretty n ∉ ["user"; "admin"].
Proof.
  destruct (pretty_Z_head n) as (c & s & -> & Hc).
  assert (c ≠ "u"%char ∧ c ≠ "a"%char) as [Hu Ha].
  { destruct Hc as [->|[d ->]]; [done|].
    unfold pretty_N_char. by repeat case_match. }
  intros Hin.
  repeat (apply elem_of_cons in Hin as [Heq|Hin]; [injection Heq as Hc' _; congruence|]).
  by apply elem_of_nil in Hin.
Qed.

Section Validation.
Import Js ExpressValidator Chains ApiClient Rules.
Variable isEmail : string → bool.
Variable normalizeEmail : string → Value.

(** [validateUserData] stops at the first rule that fails. *)
Lemma validateUserData_first userData isPartial :
  validateUserData userData isPartial = head (violations userData isPartial).
Proof.
  unfold validateUserData, violations, name_violation, email_violation, role_violation.
  cbn [omap list_omap].
  repeat (destruct (_ && _); cbn [id head]; try done).
Qed.

Lemma validateUserData_None userData isPartial :
  validateUserData userData isPartial = None ↔
  name_violation isPartial (prop userData "name") = None ∧
  email_violation isPartial (prop userData "email") = None ∧
  role_violation (prop userData "role") = None.
Proof.
  rewrite validateUserData_first. unfold violations. cbn [omap list_omap].
  destruct (name_violation _ _), (email_violation _ _), (role_violation _);
    cbn; intuition congruence.
Qed.

Lemma errors_nil opt body :
  errors isEmail opt body = [] ↔
  name_ok opt (prop body "name") = true ∧
  email_ok isEmail opt (prop body "email") = true ∧
  role_ok (prop body "role") = true.
Proof.
  unfold errors, name_errors, email_errors, role_errors.
  destruct (name_ok _ _), (email_ok _ _ _), (role_ok _); cbn; intuition congruence.
Qed.


(** The email rules agree wherever the two syntax checks do. *)
Lemma email_rules_agree isPartial v :
  (skipped isPartial v = false → isEmail (toString v) = test emailRegex (ToString v)) →
  email_violation isPartial v = None ↔ email_ok isEmail isPartial v = true.
Proof.
  unfold email_violation, email_ok. intros Hagree.
  destruct (skipped isPartial v) eqn:Hskip.
  { unfold skipped in Hskip. destruct isPartial, v; done. }
  rewrite Hagree by done. cbn [orb].
  destruct v as [| |[]|n|s]; try (destruct isPartial; cbn; naive_solver).
  - cbn [truthy defined andb ToString].
    destruct (Z.eqb_spec n 0) as [->|?]; cbn [negb];
      rewrite ?andb_true_r, ?andb_false_r;
      destruct isPartial, (test emailRegex _) eqn:Ht; cbn; try naive_solver.
    all: by vm_compute in Ht.
  - cbn [truthy defined andb ToString].
    destruct (String.eqb_spec s "") as [->|?]; cbn [negb];
      rewrite ?andb_true_r, ?andb_false_r;
      destruct isPartial, (test emailRegex _) eqn:Ht; cbn; try naive_solver.
    all: by vm_compute in Ht.
Qed.

(** The role rules agree on every value. *)
Lemma role_rules_agree v : role_violation v = None ↔ role_ok v = true.
Proof.
  unfold role_violation, role_ok, skipped, isIn, includes, strict_eq.
  destruct v as [| |[]|n|s]; try (cbn; naive_solver).
  - cbn [defined negb andb orb existsb toString ToString].
    rewrite !bool_decide_eq_false_2 by done.
    rewrite (bool_decide_eq_false_2 (pretty n ∈ _)) by apply pretty_Z_not_role.
    cbn. naive_solver.
  - cbn [defined negb andb orb existsb toString ToString].
    destruct (decide (s = "user")) as [->|?]; [cbn; naive_solver|].
    destruct (decide (s = "admin")) as [->|?]; [cbn; naive_solver|].
    rewrite !bool_decide_eq_false_2; [cbn; naive_solver|..]; try congruence.
    intros Hin.
    repeat (apply elem_of_cons in Hin as [?|Hin]; [done|]).
    by apply elem_of_nil in Hin.
Qed.
(** A name that is a number is coerced to a string by the server's chain
    and refused by the client's [typeof] test, for every [isEmail] and
    [normalizeEmail]. *)
Lemma numeric_name_splits_the_checks :
  validateUserData {[ "name" := Num 12 ]} true
    = Some {| Violation.field := "name";
              Violation.message := "Name must be between 2 and 50 characters" |} ∧
  (run_chains (chains isEmail normalizeEmail true) {[ "name" := Num 12 ]}).2 = [].
Proof.
  split; [reflexivity|].
  pose proof (run_chains_spec isEmail normalizeEmail true {[ "name" := Num 12 ]})
    as (-> & _).
  reflexivity.
Qed.

(** The fields of the errors of a body come in the order of the chains,
    each at most once. *)
Lemma errors_fields opt body :
  param <$> errors isEmail opt body `sublist_of` ["name"; "email"; "role"].
Proof.
  unfold errors, name_errors, email_errors, role_errors.
  destruct (name_ok _ _), (email_ok _ _ _), (role_ok _); cbn;
    repeat first [apply sublist_nil | apply sublist_skip | apply sublist_cons].
Qed.

(** C2, as the code has it. The client's [validateUserData] returns a
    single violation, the first in the order name, email, role, and
    [createUser] rejects with status 400 and that violation alone in
    [details], without a request. The server's 400 carries in [details]
    every error of the chains: at most one for each field, in the order
    name, email, role, hence one to three entries, the first of which is
    for the first field that fails. *)
Theorem validation_results :
  (∀ userData isPartial,
     validateUserData userData isPartial = head (violations userData isPartial)) ∧
  (∀ userData v net,
     validateUserData userData false = Some v →
     ApiClient.createUser userData net = (Rejected (validation_error v), false) ∧
     ApiError.status (validation_error v) = 400 ∧
     ApiError.details (validation_error v) = ApiError.ClientDetails [v]) ∧
  (∀ st body now,
     (run_chains (Api.post_chains isEmail normalizeEmail) body).2 ≠ [] →
     Api.post_users isEmail normalizeEmail st body now
     = ({| Api.status := 400;
           Api.json := Api.Failure "Validation failed"
             (Some (run_chains (Api.post_chains isEmail normalizeEmail) body).2) |}, st)) ∧
  (∀ st id body now,
     (run_chains (Api.put_chains isEmail normalizeEmail) body).2 ≠ [] →
     Api.put_user isEmail normalizeEmail st id body now
     = ({| Api.status := 400;
           Api.json := Api.Failure "Validation failed"
             (Some (run_chains (Api.put_chains isEmail normalizeEmail) body).2) |}, st)) ∧
  (∀ opt body,
     (run_chains (chains isEmail normalizeEmail opt) body).2
     = (name_errors opt (prop body "name")
          ++ email_errors isEmail opt (prop body "email")
          ++ role_errors (prop body "role"))%list ∧
     param <$> (run_chains (chains isEmail normalizeEmail opt) body).2
       `sublist_of` ["name"; "email"; "role"] ∧
     (length (run_chains (chains isEmail normalizeEmail opt) body).2 ≤ 3)%nat).
Proof.
  split_and!.
  - apply validateUserData_first.
  - intros userData v net Hv. unfold ApiClient.createUser. by rewrite Hv.
  - intros st body now Herrs. rewrite post_users_unfold.
    by apply handleValidationErrors_400.
  - intros st id body now Herrs. rewrite put_user_unfold.
    by apply handleValidationErrors_400.
  - intros opt body.
    pose proof (run_chains_spec isEmail normalizeEmail opt body) as (-> & _).
    split_and!; [done|apply errors_fields|].
    pose proof (sublist_length _ _ (errors_fields opt body)) as Hlen.
    by rewrite length_fmap in Hlen.
Qed.

(** A body with a bad name and a bad role gets two errors at least,
    whatever the email and the validator. *)
Lemma two_violations_listed st id email now :
  ∃ details,
    Api.json (Api.put_user isEmail normalizeEmail st id
                {[ "name" := Str "A"; "email" := email; "role" := Str "invalid-role" ]}
                now).1
    = Api.Failure "Validation failed" (Some details) ∧
    (2 ≤ length details)%nat.
Proof.
  rewrite put_user_unfold.
  pose proof (run_chains_spec isEmail normalizeEmail true
    {[ "name" := Str "A"; "email" := email; "role" := Str "invalid-role" ]}) as (He & _).
  cbn [chains] in He. rewrite He. unfold errors.
  change (prop _ "name") with (Str "A").
  change (prop _ "role") with (Str "invalid-role").
  change (name_errors true (Str "A")) with
    [{| value := Str "A"; msg := Api.name_message; param := "name" |}].
  change (role_errors (Str "invalid-role")) with
    [{| value := Str "invalid-role"; msg := Api.role_message; param := "role" |}].
  cbn. eexists. split; [reflexivity|].
  rewrite length_cons, length_app. cbn. lia.
Qed.
End Validation.

Section ValidationCompared.
Import Js ExpressValidator Chains ApiClient Rules.
Variable isEmail : string → bool.
Variable normalizeEmail : string → Value.


End ValidationCompared.

Section WideNames.
(** A string of the embedding has no surrogate pair, so that on it the
    [isLength] of validator.js is the one of the embedding. *)
Lemma no_surrogate_pairs (s : string) :
  Utf16.surrogate_pairs (Utf16.of_string s) = 0%nat.
Proof.
  unfold Utf16.of_string.
  induction s as [|c s IH]; [done|]. cbn [String.list_ascii_of_string fmap list_fmap] in *.
  cbn [Utf16.surrogate_pairs].
  destruct (N_of_ascii <$> String.list_ascii_of_string s) as [|v l] eqn:E; [done|].
  assert (Utf16.high_surrogate (N_of_ascii c) = false) as ->; [|exact IH].
  pose proof (N_ascii_bounded c). unfold Utf16.high_surrogate.
  apply andb_false_iff. left. apply N.leb_gt. lia.
Qed.

(** Beyond the strings of the embedding the two name rules still agree
    on every name that, once trimmed, has no surrogate pair. *)
Lemma wide_name_rules_agree (name : list N) :
  Utf16.surrogate_pairs (Utf16.trim name) = 0%nat →
  Utf16.client_name_ok name = Utf16.server_name_ok name.
Proof.
  unfold Utf16.client_name_ok, Utf16.server_name_ok, Utf16.isLength.
  intros ->. rewrite Nat.sub_0_r.
  destruct (Nat.ltb_spec (length (Utf16.trim name)) 2),
    (Nat.ltb_spec 50 (length (Utf16.trim name))),
    (Nat.leb_spec 2 (length (Utf16.trim name))),
    (Nat.leb_spec (length (Utf16.trim name)) 50); cbn; done || lia.
Qed.

Lemma isLength_of_string min max (s : string) :
  Utf16.isLength min max (Utf16.of_string s) = ExpressValidator.isLength min max s.
Proof.
  unfold Utf16.isLength, ExpressValidator.isLength. rewrite no_surrogate_pairs, Nat.sub_0_r.
  assert (length (Utf16.of_string s) = String.length s) as ->; [|done].
  unfold Utf16.of_string. rewrite length_fmap.
  induction s as [|c s IH]; [done|]. cbn. by rewrite IH.
Qed.
End WideNames.

(** The body of the repository's own test of invalid data: [details] lists
    three violations, not one. *)
Lemma validation_details_hold_several :
  let body : ExpressValidator.Obj :=
    {[ "name" := Js.Str "A"; "email" := Js.Str "invalid-email";
       "role" := Js.Str "invalid-role" ]} in
  Api.post_users Sample.isEmail Sample.normalizeEmail Api.initial body Sample.now
  = ({| Api.status := 400;
        Api.json := Api.Failure "Validation failed"
          (Some [{| ExpressValidator.value := Js.Str "A";
                    ExpressValidator.msg := Api.name_message;
                    ExpressValidator.param := "name" |};
                 {| ExpressValidator.value := Js.Str "invalid-email";
                    ExpressValidator.msg := Api.email_message;
                    ExpressValidator.param := "email" |};
                 {| ExpressValidator.value := Js.Str "invalid-role";
                    ExpressValidator.msg := Api.role_message;
                    ExpressValidator.param := "role" |}]) |}, Api.initial).
Proof. vm_compute. reflexivity. Qed.

(** [{ name: 12 }] sent as an update: the client refuses it, the server's
    chains accept it and the record is renamed to the string of the number. *)
Lemma client_rejects_what_server_accepts :
  let userData : ExpressValidator.Obj := {[ "name" := Js.Num 12 ]} in
  ApiClient.validateUserData userData true
    = Some {| Violation.field := "name";
              Violation.message := "Name must be between 2 and 50 characters" |} ∧
  (ExpressValidator.run_chains
     (Api.put_chains Sample.isEmail Sample.normalizeEmail) userData).2 = [] ∧
  (Api.put_user Sample.isEmail Sample.normalizeEmail Api.initial "2" userData Sample.now).1
  = {| Api.status := 200;
       Api.json := Api.UserData (Some "User updated successfully")
         {| User.id := 2; User.name := Js.Str "12";
            User.email := Js.Str "test@example.com"; User.role := Js.Str "user";
            User.createdAt := None; User.updatedAt := Some Sample.now |} |}.
Proof. split_and!; vm_compute; reflexivity. Qed.

(** With the stand-in validator, which like validator.js wants a last label
    of two code units, [a@b.c] passes the client's pattern and fails the
    server's check. *)
Example client_pattern_is_looser :
  let userData : ExpressValidator.Obj :=
    {[ "name" := Js.Str "John Doe"; "email" := Js.Str "a@b.c" ]} in
  ApiClient.validateUserData userData false = None ∧
  length (ExpressValidator.run_chains
            (Api.post_chains Sample.isEmail Sample.normalizeEmail) userData).2 = 1%nat.
Proof. split; vm_compute; reflexivity. Qed.



Lemma created_ids_increase_witness :
  let ann : ExpressValidator.Obj :=
    {[ "name" := Js.Str "Ann Lee"; "email" := Js.Str "ann@example.com" ]} in
  let bob : ExpressValidator.Obj :=
    {[ "name" := Js.Str "Bob Ray"; "email" := Js.Str "bob@example.com" ]} in
  let reqs := [(Sample.now, Api.POST_users ann); (Sample.now, Api.DELETE_user "3");
               (Sample.now, Api.POST_users bob)] in
  let log := (Api.run Sample.isEmail Sample.normalizeEmail Api.initial reqs).1 in
  Api.created_id <$> log = [Some 3; None; Some 4] ∧
  Api.deleted_id <$> log = [None; Some 3; None] ∧
  ∀ i e' d, (i < 2)%nat → log !! i = Some e' → Api.deleted_id e' = Some d → d < 4 ∧ d ≠ 4.
Proof.
  split_and!; [vm_compute; reflexivity..|].
  eapply (created_ids_increase Sample.isEmail Sample.normalizeEmail _ 2 _ 4);
    vm_compute; reflexivity.
Defined.

(** * Further properties of the code *)

(** ** [parseInt] on the decimal form of an integer *)

Section ParseIntFacts.
Import Js ParseIntStages.

Lemma decimal_digit_pretty_N_char d :
  (d < 10)%N → decimal_digit (pretty_N_char d) = Some (Z.of_N d).
Proof.
  intros Hd.
  assert (d = 0 ∨ d = 1 ∨ d = 2 ∨ d = 3 ∨ d = 4 ∨ d = 5 ∨ d = 6 ∨ d = 7 ∨ d = 8 ∨ d = 9)%N
    as Hcases by lia.
  destruct Hcases as [->|[->|[->|[->|[->|[->|[->|[->|[->| ->]]]]]]]]]; reflexivity.
Qed.

Lemma digits_pretty_N_go (x : N) : ∀ s acc,
  default 0 acc = 0 →
  digits 10 decimal_digit (pretty_N_go x s) acc
  = digits 10 decimal_digit s (if decide (x = 0)%N then acc else Some (Z.of_N x)).
Proof.
  induction (N.lt_wf_0 x) as [x _ IH]; intros s acc Hacc.
  destruct (decide (x = 0)%N) as [->|Hx]; [done|].
  rewrite pretty_N_go_step by lia.
  rewrite (IH (x `div` 10)%N) by (done || apply N.div_lt; lia).
  cbn [digits]. rewrite decimal_digit_pretty_N_char by (apply N.mod_lt; lia).
  f_equal. f_equal.
  destruct (decide (x `div` 10 = 0)%N) as [Hq|Hq].
  - rewrite Hacc. pose proof (N.div_mod x 10). lia.
  - cbn. pose proof (N.div_mod x 10). lia.
Qed.

Lemma all_digits_pretty_N_go (x : N) : ∀ s,
  all_digits s → all_digits (pretty_N_go x s).
Proof.
  induction (N.lt_wf_0 x) as [x _ IH]; intros s Hs.
  destruct (decide (x = 0)%N) as [->|Hx]; [done|].
  rewrite pretty_N_go_step by lia. apply IH; [apply N.div_lt; lia|].
  constructor; [|done].
  rewrite decimal_digit_pretty_N_char by (apply N.mod_lt; lia). done.
Qed.

Lemma parseInt_string_stages s :
  parseInt_string s = Z.mul (signed (ltrim s)).1 <$> unsigned (signed (ltrim s)).2.
Proof.
  unfold parseInt_string. fold (signed (ltrim s)).
  destruct (signed (ltrim s)) as [sign s2]. cbn [fst snd].
  destruct s2 as [|c s2]; [done|].
  destruct c as [[] [] [] [] [] [] [] []]; try reflexivity.
  destruct s2 as [|c2 r]; [done|].
  destruct c2 as [[] [] [] [] [] [] [] []]; reflexivity.
Qed.

(** A digit string has no [0x] prefix: it is read in base 10. *)
Lemma unsigned_digits t :
  all_digits t → unsigned t = digits 10 decimal_digit t None.
Proof.
  intros Ht. destruct t as [|c t]; [done|].
  apply Forall_cons in Ht as [_ Ht].
  destruct c as [[] [] [] [] [] [] [] []]; try reflexivity.
  destruct t as [|c2 r]; [done|].
  apply Forall_cons in Ht as [[d2 Hc2] _].
  destruct c2 as [[] [] [] [] [] [] [] []]; try reflexivity; discriminate Hc2.
Qed.

(** A string that starts with a digit has no white space to skip and no
    sign. *)
Lemma signed_ltrim_digit c t :
  is_Some (decimal_digit c) → signed (ltrim (String c t)) = (1, String c t).
Proof.
  intros [d Hc].
  destruct c as [[] [] [] [] [] [] [] []]; try discriminate Hc; reflexivity.
Qed.

Lemma mul_one_fmap (y : option Z) : Z.mul 1 <$> y = y.
Proof. destruct y as [y|]; cbn; [f_equal; lia|done]. Qed.

(** On a non-empty string of digits [parseInt] reads every digit, in base
    10. *)
Lemma parseInt_string_digits t :
  all_digits t → t ≠ "" →
  parseInt_string t = digits 10 decimal_digit t None.
Proof.
  intros Ht Hne. destruct t as [|c t]; [done|].
  rewrite parseInt_string_stages, signed_ltrim_digit by (by apply Forall_cons in Ht as [? _]).
  cbn [fst snd]. by rewrite unsigned_digits, mul_one_fmap.
Qed.

Lemma pretty_pos_digits p :
  all_digits (pretty (N.pos p)) ∧ pretty (N.pos p) ≠ ""
  ∧ digits 10 decimal_digit (pretty (N.pos p)) None = Some (Z.pos p).
Proof.
  unfold pretty, pretty_N. destruct (decide _) as [|_]; [done|].
  split_and!.
  - apply all_digits_pretty_N_go. constructor.
  - rewrite pretty_N_go_step by done.
    destruct (pretty_N_go_head (N.pos p `div` 10)%N
                (String (pretty_N_char (N.pos p `mod` 10)) ""))
      as [->|(d & s' & ->)]; done.
  - rewrite digits_pretty_N_go by done. done.
Qed.

(** [parseInt(String(n))] is [n], for every integer. *)
Lemma parseInt_pretty (n : Z) : parseInt (Num n) = Some n.
Proof.
  unfold parseInt. cbn [ToString]. destruct n as [|p|p]; [reflexivity|..];
    destruct (pretty_pos_digits p) as (Hall & Hne & Hval).
  - change (pretty (Z.pos p)) with (pretty (N.pos p)).
    by rewrite parseInt_string_digits.
  - change (pretty (Z.neg p)) with (String "-" (pretty (N.pos p))).
    rewrite parseInt_string_stages.
    change (signed (ltrim (String "-" (pretty (N.pos p))))) with (-1, pretty (N.pos p)).
    cbn [fst snd]. rewrite unsigned_digits, Hval by done. reflexivity.
Qed.
End ParseIntFacts.

Section ParseIntTail.
Import Js ParseIntStages.




End ParseIntTail.

(** ** The store over a run of requests *)

Section StoreFacts.
Import Js ExpressValidator Chains Invariant.
Variable isEmail : string → bool.
Variable normalizeEmail : string → Value.

Local Abbreviation Effect := (Invariant.Effect isEmail normalizeEmail).

Ltac untouched Hh := injection Hh as <- <-; by apply Untouched.

Lemma handle_effect st now req res st' :
  Api.handle isEmail normalizeEmail st now req = (res, st') → Effect st (req, res) st'.
Proof.
  intros Hh. destruct req as [query|id|body|id body|id]; cbn [Api.handle] in Hh.
  - untouched Hh.
  - injection Hh as <- <-. apply Untouched; try done.
    all: unfold Api.get_user; destruct (parseInt _); [|done];
      destruct (list_find _ _) as [[]|]; done.
  - rewrite post_users_unfold in Hh.
    destruct (run_chains _ body) as [body' errs]; cbn [fst snd] in Hh.
    destruct errs; cbn in Hh; [|untouched Hh].
    unfold Api.post_users_handler in Hh.
    destruct (list_find _ _) eqn:Hfind; [untouched Hh|].
    injection Hh as <- <-. apply Created; [done|]. cbn.
    by apply (list_find_None (λ u, User.email u = prop body' "email")).
  - rewrite put_user_unfold in Hh.
    pose proof (run_chains_spec isEmail normalizeEmail true body) as (Herrs & _ & He & _).
    cbn [chains] in Herrs, He.
    destruct (run_chains _ body) as [body' errs]; cbn [fst snd] in Hh, Herrs, He.
    destruct errs; cbn in Hh; [|untouched Hh].
    symmetry in Herrs. apply errors_nil in Herrs as (_ & Hok & _).
    unfold Api.put_user_handler in Hh.
    destruct (parseInt (Str id)); [|untouched Hh].
    destruct (list_find (λ u, User.id u = _) _) as [[i user]|] eqn:Hfind; [|untouched Hh].
    apply list_find_Some in Hfind as (Hi & _ & _).
    destruct (_ && _ && _) eqn:Hdup; [untouched Hh|].
    injection Hh as <- <-. eapply Updated; [done|done|..]; cbn.
    + destruct (defined (prop body' "email")) eqn:Hdef; [|by left]. right.
      rewrite He in Hdef |- *. unfold email_sanitized, email_ok in *.
      destruct (skipped true (prop body "email")) eqn:Hskip.
      * unfold skipped in Hskip. by destruct (prop body "email").
      * eauto.
    + intros Htruthy Hne.
      destruct (defined (prop body' "email")); [|done].
      rewrite Htruthy in Hdup. unfold strict_eq in Hdup.
      rewrite bool_decide_eq_false_2 in Hdup by done. cbn in Hdup.
      apply bool_decide_eq_false_1 in Hdup.
      apply (list_find_None (λ u, User.email u = prop body' "email")).
      destruct (list_find _ _); [|done].
      exfalso. apply Hdup. eauto.
  - cbn in Hh. unfold Api.delete_user in Hh.
    destruct (parseInt (Str id)); [|untouched Hh].
    destruct (list_find _ _) as [[i user]|] eqn:Hfind; [|untouched Hh].
    apply list_find_Some in Hfind as (Hi & _ & _).
    injection Hh as <- <-. by eapply Deleted.
Qed.

Lemma creates_cons e log :
  creates (e :: log) = (one (Api.created_id e) + creates log)%nat.
Proof. unfold creates. cbn. by destruct (Api.created_id e). Qed.

Lemma deletes_cons e log :
  deletes (e :: log) = (one (Api.deleted_id e) + deletes log)%nat.
Proof. unfold deletes. cbn. by destruct (Api.deleted_id e). Qed.

(** One request: ids stay below the counter and pairwise distinct, the
    counter moves by one exactly on a create, and the collection grows by
    one on a create and shrinks by one on a delete. *)
Lemma effect_ids st e st' :
  Effect st e st' →
  Api.ids_below st → unique_ids st →
  Api.ids_below st' ∧ unique_ids st' ∧
  Api.nextId st' = Api.nextId st + Z.of_nat (one (Api.created_id e)) ∧
  (length (Api.users st') + one (Api.deleted_id e)
   = length (Api.users st) + one (Api.created_id e))%nat.
Proof.
  unfold Api.ids_below, unique_ids.
  intros [req res Hs Hc Hd _ _|body u Hu|id body i u u' Hi Hu|id i u Hi] Hbelow Huniq.
  { rewrite Hc, Hd. cbn. split_and!; [done..|lia|lia]. }
  all: cbn.
  - split_and!; [| |done|rewrite length_app; cbn; lia].
    + apply Forall_app. split.
      * eapply Forall_impl; [done|]. cbn. intros; lia.
      * repeat constructor. lia.
    + rewrite fmap_app. apply NoDup_app. split_and!; [done| |apply NoDup_singleton].
      intros x Hx. apply list_elem_of_fmap in Hx as (y & -> & Hy).
      rewrite Forall_forall in Hbelow. specialize (Hbelow _ Hy). cbn.
      rewrite list_elem_of_singleton. lia.
  - split_and!; [| |lia|rewrite length_insert; lia].
    + apply Forall_insert; [done|]. rewrite Hu.
      by eapply (Forall_lookup_1 _ _ _ _ Hbelow).
    + rewrite list_fmap_insert, Hu, list_insert_id; [done|].
      by rewrite list_lookup_fmap, Hi.
  - split_and!; [| |lia|].
    + by apply Forall_delete.
    + rewrite list_fmap_delete. eapply sublist_NoDup; [done|]. apply sublist_delete.
    + rewrite length_delete by eauto. apply lookup_lt_Some in Hi. lia.
Qed.

(** The same over a run, by induction on the requests. *)
Lemma run_ids_counts reqs : ∀ st log st',
  Api.run isEmail normalizeEmail st reqs = (log, st') →
  Api.ids_below st → unique_ids st →
  Api.ids_below st' ∧ unique_ids st' ∧
  Api.nextId st' = Api.nextId st + Z.of_nat (creates log) ∧
  (length (Api.users st') + deletes log = length (Api.users st) + creates log)%nat.
Proof.
  induction reqs as [|[now req] reqs IH]; intros st log st' Hrun Hbelow Huniq.
  { injection Hrun as <- <-. split_and!; [done..|cbn; lia|cbn; lia]. }
  cbn [Api.run] in Hrun.
  destruct (Api.handle _ _ st now req) as [res st1] eqn:Hh.
  destruct (Api.run _ _ st1 reqs) as [log1 st2] eqn:Hrun1.
  injection Hrun as <- <-.
  destruct (effect_ids _ _ _ (handle_effect _ _ _ _ _ Hh) Hbelow Huniq)
    as (Hb1 & Hu1 & Hn1 & Hl1).
  destruct (IH _ _ _ Hrun1 Hb1 Hu1) as (Hb2 & Hu2 & Hn2 & Hl2).
  rewrite creates_cons, deletes_cons.
  split_and!; [done..| |].
  - rewrite Hn2, Hn1. lia.
  - lia.
Qed.

(** X2. In every run from the initial store the stored ids are pairwise
    distinct and below the counter, the counter is 3 plus the number of
    creates that succeeded, and the collection holds the two seed records
    plus the records created minus the records deleted. *)
Theorem run_store_counts reqs :
  let log := (Api.run isEmail normalizeEmail Api.initial reqs).1 in
  let st := (Api.run isEmail normalizeEmail Api.initial reqs).2 in
  unique_ids st ∧ Api.ids_below st ∧
  Api.nextId st = 3 + Z.of_nat (creates log) ∧
  (length (Api.users st) + deletes log = 2 + creates log)%nat.
Proof.
  cbn zeta. destruct (Api.run _ _ _ reqs) as [log st] eqn:Hrun.
  destruct (run_ids_counts _ _ _ _ Hrun) as (Hb & Hu & Hn & Hl).
  - repeat constructor.
  - unfold unique_ids. cbn. apply NoDup_cons. split; [|apply NoDup_singleton].
    rewrite list_elem_of_singleton. done.
  - done.
Qed.

End StoreFacts.

(** ** The emails over a run of requests *)

Section TruthyEmails.
Import Js ExpressValidator Chains Invariant.
Variable isEmail : string → bool.
Variable normalizeEmail : string → Value.

Local Abbreviation Effect := (Invariant.Effect isEmail normalizeEmail).

(** Replacing an element keeps the selected elements distinct when the
    new one, if it is selected, is the old one or occurs nowhere. *)
Lemma NoDup_filter_insert {A} (P : A → Prop) `{∀ x, Decision (P x)} (l : list A) i x :
  NoDup (filter P l) → (P x → l !! i = Some x ∨ x ∉ l) → NoDup (filter P (<[i:=x]> l)).
Proof.
  intros Hl Hx. destruct (l !! i) as [y|] eqn:Hi.
  2: { rewrite list_insert_ge; [done|]. by apply lookup_ge_None. }
  rewrite insert_take_drop by (by eapply lookup_lt_Some).
  rewrite <- (take_drop_middle l i y Hi) in Hl, Hx.
  rewrite filter_app, filter_cons in Hl |- *.
  assert (NoDup (filter P (take i l) ++ filter P (drop (S i) l))) as Hrest.
  { eapply sublist_NoDup; [exact Hl|]. apply sublist_app; [done|].
    destruct (decide (P y)); [by apply sublist_cons|done]. }
  destruct (decide (P x)) as [HP|]; [|done].
  destruct (Hx HP) as [[= ->]|Hnew]; [by rewrite decide_True in Hl|].
  apply NoDup_app in Hrest as (H1 & H12 & H2).
  apply NoDup_app. split_and!; [done| |].
  - intros z Hz [->|Hz']%elem_of_cons; [|by apply (H12 z)].
    apply Hnew. apply elem_of_app. left.
    by apply list_elem_of_filter in Hz as [_ Hz].
  - apply NoDup_cons. split; [|done]. intros Hin. apply Hnew.
    apply elem_of_app. right. right. by apply list_elem_of_filter in Hin as [_ Hin].
Qed.

Lemma filter_sublist_mono {A} (P : A → Prop) `{∀ x, Decision (P x)} (l1 l2 : list A) :
  l1 `sublist_of` l2 → filter P l1 `sublist_of` filter P l2.
Proof.
  induction 1 as [|x l1 l2 _ IH|x l1 l2 _ IH]; [done| |].
  - rewrite !filter_cons. destruct (decide (P x)); [by apply sublist_skip|done].
  - rewrite filter_cons. destruct (decide (P x)); [by apply sublist_cons|done].
Qed.

(** One request keeps the truthy emails pairwise distinct, whatever
    [isEmail] and [normalizeEmail] are. *)
Lemma effect_truthy_emails st e st' :
  Effect st e st' → unique_truthy_emails st → unique_truthy_emails st'.
Proof.
  unfold unique_truthy_emails.
  intros [req res|body u Hu Hfresh|id body i u u' Hi Hu Hsrc Hfresh|id i u Hi] Huniq;
    cbn.
  - done.
  - rewrite fmap_app, filter_app. cbn [fmap list_fmap].
    rewrite filter_cons, filter_nil.
    destruct (decide _) as [Ht|]; [|by rewrite app_nil_r].
    apply NoDup_app. split_and!; [done| |apply NoDup_singleton].
    intros x Hx. apply list_elem_of_filter in Hx as [_ Hx].
    apply list_elem_of_fmap in Hx as (y & -> & Hy).
    rewrite list_elem_of_singleton. rewrite Forall_forall in Hfresh. by apply Hfresh.
  - rewrite list_fmap_insert. apply NoDup_filter_insert; [done|]. intros Ht.
    destruct (decide (User.email u' = User.email u)) as [Heq|Hne].
    { left. by rewrite list_lookup_fmap, Hi, Heq. }
    right. intros Hin. apply list_elem_of_fmap in Hin as (y & Hy & Hyin).
    specialize (Hfresh Ht Hne). rewrite Forall_forall in Hfresh.
    by apply (Hfresh y Hyin).
  - rewrite list_fmap_delete. eapply sublist_NoDup; [exact Huniq|].
    apply filter_sublist_mono, sublist_delete.
Qed.

Lemma run_truthy_emails reqs : ∀ st,
  unique_truthy_emails st →
  unique_truthy_emails (Api.run isEmail normalizeEmail st reqs).2.
Proof.
  induction reqs as [|[now req] reqs IH]; intros st Huniq; [done|].
  cbn [Api.run].
  destruct (Api.handle _ _ st now req) as [res st1] eqn:Hh.
  specialize (IH st1 (effect_truthy_emails _ _ _ (handle_effect isEmail normalizeEmail _ _ _ _ _ Hh) Huniq)).
  by destruct (Api.run _ _ st1 reqs).
Qed.

(** X3. In every run from the initial store no two stored records have the
    same truthy email, whatever [isEmail] and [normalizeEmail] are. The
    emails that are falsy, the [false] of an address [normalizeEmail] could
    not normalize, are not covered: a PUT stores them unchecked. *)
Theorem run_truthy_emails_distinct reqs :
  unique_truthy_emails (Api.run isEmail normalizeEmail Api.initial reqs).2.
Proof.
  apply run_truthy_emails.
  unfold unique_truthy_emails. cbn [Api.initial Api.users fmap list_fmap User.email].
  rewrite !filter_cons, filter_nil. cbn [truthy String.eqb negb].
  rewrite !decide_True by done.
  apply NoDup_cons. split; [|apply NoDup_singleton].
  rewrite list_elem_of_singleton. done.
Qed.
End TruthyEmails.

(** ** What the routes do to the collection *)

Lemma filter_none {A} (P : A → Prop) `{∀ x, Decision (P x)} (l : list A) :
  Forall (λ x, ¬ P x) l → filter P l = [].
Proof.
  induction 1 as [|x l Hx _ IH]; [done|]. by rewrite filter_cons_False.
Qed.

Section RouteFacts.
Import Js ExpressValidator Chains.
Variable isEmail : string → bool.
Variable normalizeEmail : string → Value.

(** X4. A POST that passes validation, with an email no stored record has,
    is answered 201 with a record that carries the counter as id, the
    trimmed name, the normalized email, the role of the body or ["user"],
    [createdAt] and no [updatedAt]; the record is appended to the
    collection and the counter moves by one. *)
Theorem post_users_created st body now :
  (run_chains (Api.post_chains isEmail normalizeEmail) body).2 = [] →
  Forall (λ u, User.email u ≠ normalizeEmail (toString (prop body "email")))
    (Api.users st) →
  let newUser := {|
    User.id := Api.nextId st;
    User.name := Str (Js.trim (toString (prop body "name")));
    User.email := normalizeEmail (toString (prop body "email"));
    User.role := if defined (prop body "role") then prop body "role" else Str "user";
    User.createdAt := Some now; User.updatedAt := None |} in
  Api.post_users isEmail normalizeEmail st body now
  = ({| Api.status := 201;
        Api.json := Api.UserData (Some "User created successfully") newUser |},
     {| Api.users := Api.users st ++ [newUser]; Api.nextId := Api.nextId st + 1 |}).
Proof.
  intros Hok Hfresh. cbn zeta. rewrite post_users_unfold, Hok.
  pose proof (run_chains_spec isEmail normalizeEmail false body) as (_ & Hn & He & Hr).
  cbn [chains] in Hn, He, Hr.
  set (body' := (run_chains _ body).1) in *.
  unfold Api.handleValidationErrors, Api.post_users_handler.
  rewrite Hn, He, Hr. unfold name_sanitized, email_sanitized, skipped. cbn [andb].
  assert (list_find (λ u, User.email u = normalizeEmail (toString (prop body "email")))
            (Api.users st) = None) as ->.
  { by apply list_find_None. }
  by destruct (prop body "role").
Qed.

(** X5. The record of a 201 can be fetched by its id at once: GET on the
    decimal form of the id answers 200 with that very record, which is the
    only stored record with that id. *)
Theorem post_then_get st body now res st' m u :
  Api.ids_below st →
  Api.post_users isEmail normalizeEmail st body now = (res, st') →
  res = {| Api.status := 201; Api.json := Api.UserData m u |} →
  Api.get_user st' (pretty (User.id u))
    = {| Api.status := 200; Api.json := Api.UserData None u |} ∧
  filter (λ y, User.id y = User.id u) (Api.users st') = [u].
Proof.
  intros Hbelow Hpost ->.
  pose proof (handle_effect isEmail normalizeEmail st now (Api.POST_users body) _ _ Hpost)
    as Heff.
  inversion Heff as [? ? Hs| ? ? Hid _ | |]; subst; [done|].
  assert (Forall (λ y, ¬ User.id y = User.id u) (Api.users st)) as Hnone.
  { eapply Forall_impl; [exact Hbelow|]. cbn. intros y Hy. lia. }
  split.
  - unfold Api.get_user. change (parseInt (Str (pretty ?n))) with (parseInt (Num n)).
    rewrite parseInt_pretty. cbn [Api.users].
    rewrite list_find_app_r by (by apply list_find_None).
    cbn. by rewrite decide_True.
  - cbn [Api.users]. rewrite filter_app.
    rewrite filter_none by done.
    rewrite app_nil_l, filter_cons, filter_nil. by rewrite decide_True.
Qed.

(** X6. A PUT whose body has none of the three fields passes validation, and
    on a stored id answers 200: the record is stamped with [updatedAt] and
    nothing else changes. *)
Theorem put_user_empty_body st id body now n i user :
  prop body "name" = Undefined → prop body "email" = Undefined →
  prop body "role" = Undefined →
  parseInt (Str id) = Some n →
  list_find (λ u, User.id u = n) (Api.users st) = Some (i, user) →
  let updated := {|
    User.id := User.id user; User.name := User.name user;
    User.email := User.email user; User.role := User.role user;
    User.createdAt := User.createdAt user; User.updatedAt := Some now |} in
  Api.put_user isEmail normalizeEmail st id body now
  = ({| Api.status := 200;
        Api.json := Api.UserData (Some "User updated successfully") updated |},
     {| Api.users := <[i := updated]> (Api.users st); Api.nextId := Api.nextId st |}).
Proof.
  intros Hn He Hr Hid Hfind. cbn zeta. rewrite put_user_unfold.
  pose proof (run_chains_spec isEmail normalizeEmail true body) as (Herrs & Hn' & He' & Hr').
  cbn [chains] in *.
  rewrite Herrs. set (body' := (run_chains _ body).1) in *.
  unfold errors. rewrite Hn, He, Hr in *.
  unfold Api.handleValidationErrors, Api.put_user_handler.
  cbn [name_errors email_errors role_errors name_ok email_ok role_ok skipped defined
       negb andb orb app].
  rewrite Hid, Hfind, Hn', He', Hr'. done.
Qed.
End RouteFacts.

Section DeleteAndList.
Import Js ExpressValidator.

(** X7. A DELETE that answers 200 removed one record, the first with the id of
    the path, and returned it; the records before and after it are kept in
    their order and the counter is not touched. *)
Theorem delete_user_frame st id res st' :
  Api.delete_user st id = (res, st') →
  Api.status res = 200 →
  ∃ i user,
    parseInt (Str id) = Some (User.id user) ∧
    Api.users st !! i = Some user ∧
    (∀ j y, Api.users st !! j = Some y → (j < i)%nat → User.id y ≠ User.id user) ∧
    res = {| Api.status := 200;
             Api.json := Api.UserData (Some "User deleted successfully") user |} ∧
    Api.users st = (take i (Api.users st) ++ user :: drop (S i) (Api.users st))%list ∧
    Api.users st' = (take i (Api.users st) ++ drop (S i) (Api.users st))%list ∧
    S (length (Api.users st')) = length (Api.users st) ∧
    Api.nextId st' = Api.nextId st.
Proof.
  unfold Api.delete_user.
  destruct (parseInt (Str id)) as [n|]; [|by intros [= <- <-]].
  destruct (list_find _ _) as [[i user]|] eqn:Hfind; [|by intros [= <- <-]].
  apply list_find_Some in Hfind as (Hi & <- & Hfirst).
  intros [= <- <-] _. exists i, user. cbn.
  split_and!; try done.
  - by rewrite take_drop_middle.
  - apply delete_take_drop.
  - rewrite length_delete by eauto. apply lookup_lt_Some in Hi. lia.
Qed.

Lemma delete_no_id (l : list User.t) i u :
  NoDup (User.id <$> l) → l !! i = Some u →
  Forall (λ y, ¬ User.id y = User.id u) (delete i l).
Proof.
  intros Hnd Hi. rewrite delete_take_drop.
  rewrite <- (take_drop_middle l i u Hi), fmap_app, fmap_cons in Hnd.
  apply NoDup_app in Hnd as (_ & H12 & [H2 _]%NoDup_cons).
  apply Forall_app. split; apply Forall_forall; intros y Hy Heq.
  - apply (H12 (User.id y)); [by apply list_elem_of_fmap_2|]. rewrite Heq. by left.
  - apply H2. rewrite <- Heq. by apply list_elem_of_fmap_2.
Qed.

(** X8. Once a record is deleted, while ids are pairwise distinct, its id
    names nothing: a GET and a second DELETE of the same path answer 404,
    and the second DELETE changes nothing. *)
Theorem delete_then_not_found st id res st' :
  NoDup (User.id <$> Api.users st) →
  Api.delete_user st id = (res, st') →
  Api.status res = 200 →
  Api.get_user st' id = Api.not_found ∧
  Api.delete_user st' id = (Api.not_found, st').
Proof.
  intros Hnd. unfold Api.delete_user, Api.get_user.
  destruct (parseInt (Str id)) as [n|]; [|by intros [= <- <-]].
  destruct (list_find _ _) as [[i user]|] eqn:Hfind; [|by intros [= <- <-]].
  apply list_find_Some in Hfind as (Hi & <- & _).
  intros [= <- <-] _. cbn [Api.users].
  assert (list_find (λ u, User.id u = User.id user) (delete i (Api.users st)) = None)
    as ->; [|done].
  apply list_find_None. by apply delete_no_id.
Qed.

(** X9. GET /users never returns more than it counted, nor counts more than
    is stored, and the records of [data] are records of the collection in
    the order of the collection. *)
Theorem get_users_bounds st query :
  ∃ data total returned,
    Api.json (Api.get_users st query) = Api.UserList data total returned ∧
    (returned ≤ total ≤ length (Api.users st))%nat ∧
    data `sublist_of` Api.users st.
Proof.
  unfold Api.get_users.
  set (limit := match prop query "limit" with Undefined => _ | _ => _ end).
  set (filtered := if truthy _ then _ else _).
  assert (filtered `sublist_of` Api.users st) as Hsub.
  { subst filtered. destruct (truthy _); [apply sublist_filter|done]. }
  eexists _, _, _. split; [reflexivity|]. split_and!.
  - apply prefix_length, slice0_prefix.
  - by apply sublist_length.
  - etrans; [|exact Hsub].
    destruct (slice0_prefix filtered (parseInt limit)) as [k Hk].
    rewrite Hk at 2. by apply sublist_inserts_r.
Qed.

(** X10. The count for every limit that parses: a limit of [e >= 0] returns the
    first [e] records of the filtered list (all of them when there are
    fewer), and a negative limit [e] returns the list without its last
    [-e] records (nothing when there are fewer). *)
Theorem get_users_limit_count st query s e :
  prop query "limit" = Str s →
  parseInt (Str s) = Some e →
  ∃ data total,
    Api.json (Api.get_users st query) = Api.UserList data total (length data) ∧
    (0 ≤ e → Z.of_nat (length data) = Z.min e (Z.of_nat total)) ∧
    (e < 0 → Z.of_nat (length data) = Z.max 0 (Z.of_nat total + e)) ∧
    ∃ rest, (data ++ rest)%list
            = (if truthy (prop query "role")
               then filter (λ u, User.role u = prop query "role") (Api.users st)
               else Api.users st).
Proof.
  intros Hl He. unfold Api.get_users. rewrite Hl, He.
  set (filtered := if truthy _ then _ else _).
  eexists _, _. split; [reflexivity|]. cbn [slice0].
  destruct (Z.ltb_spec e 0); split_and!; try lia.
  - rewrite length_take. lia.
  - eexists. apply take_drop.
  - rewrite length_take. lia.
  - eexists. apply take_drop.
Qed.
End DeleteAndList.

Lemma delete_user_frame_witness :
  ∃ i user,
    Api.users Api.initial !! i = Some user ∧ User.id user = 1 ∧
    (Api.delete_user Api.initial "1").2
    = {| Api.users := drop (S i) (Api.users Api.initial); Api.nextId := 3 |}.
Proof.
  destruct (delete_user_frame Api.initial "1"
              (Api.delete_user Api.initial "1").1 (Api.delete_user Api.initial "1").2
              eq_refl eq_refl)
    as (i & user & Hid & Hi & _).
  exists i, user. split_and!; [exact Hi|by injection Hid|].
  assert (i = 0%nat) as ->; [|reflexivity].
  destruct i as [|[|i]]; [done|..]; cbn in Hi.
  - injection Hi as <-. by injection Hid.
  - done.
Defined.

Lemma delete_then_not_found_witness :
  Api.get_user (Api.delete_user Api.initial "2").2 "2" = Api.not_found ∧
  Api.delete_user (Api.delete_user Api.initial "2").2 "2"
  = (Api.not_found, (Api.delete_user Api.initial "2").2).
Proof.
  apply (delete_then_not_found Api.initial "2" (Api.delete_user Api.initial "2").1).
  - cbn. apply NoDup_cons. split; [|apply NoDup_singleton].
    rewrite list_elem_of_singleton. done.
  - reflexivity.
  - reflexivity.
Defined.

Lemma get_users_limit_count_witness :
  ∃ data total,
    Api.json (Api.get_users Api.initial {[ "limit" := Js.Str "-1" ]})
      = Api.UserList data total (length data) ∧
    Z.of_nat (length data) = 1.
Proof.
  destruct (get_users_limit_count Api.initial {[ "limit" := Js.Str "-1" ]} "-1" (-1))
    as (data & total & Hjson & _ & Hneg & _); [vm_compute; reflexivity..|].
  exists data, total. split; [exact Hjson|].
  rewrite Hneg by lia. injection Hjson as _ <- _. reflexivity.
Defined.

(** ** The cache, key by key *)

Section CacheKeys.
Context {V : Type}.
Implicit Types (c : ApiCache.t V) (key : string) (v : V).

Lemma cache_get_ttl_kept c now key : ApiCache.ttl (ApiCache.get c now key).2 = ApiCache.ttl c.
Proof.
  unfold ApiCache.get. destruct (ApiCache.cache c !! key) as [item|]; [|done].
  by destruct (_ <? _).
Qed.

(** X11. [set], [get] and [delete] on one key, and the eviction [get] may
    do, leave what a read of any other key gives as it was. *)
Theorem cache_other_keys c now now' key key' v :
  key ≠ key' →
  (ApiCache.get (ApiCache.set c now key v) now' key').1 = (ApiCache.get c now' key').1 ∧
  (ApiCache.get (ApiCache.get c now key).2 now' key').1 = (ApiCache.get c now' key').1 ∧
  (ApiCache.get (ApiCache.delete c key) now' key').1 = (ApiCache.get c now' key').1.
Proof.
  intros Hne. split_and!.
  - unfold ApiCache.get, ApiCache.set. cbn. rewrite lookup_insert_ne by done.
    destruct (ApiCache.cache c !! key') as [item|]; [|done]. by destruct (_ <? _).
  - unfold ApiCache.get at 2.
    destruct (ApiCache.cache c !! key) as [item|] eqn:E; [|done].
    destruct (_ <? _); [|done].
    unfold ApiCache.get. cbn. rewrite lookup_delete_ne by done.
    destruct (ApiCache.cache c !! key') as [item'|]; [|done]. by destruct (_ <? _).
  - unfold ApiCache.get, ApiCache.delete. cbn. rewrite lookup_delete_ne by done.
    destruct (ApiCache.cache c !! key') as [item'|]; [|done]. by destruct (_ <? _).
Qed.

(** X12. A read that misses is final: until the next [set] of that key every
    read of it misses, whatever the clock says then; so do the reads after
    [delete(key)] and after [clear()]. *)
Theorem cache_miss_is_final c now now' key :
  ((ApiCache.get c now key).1 = None →
   (ApiCache.get (ApiCache.get c now key).2 now' key).1 = None) ∧
  (ApiCache.get (ApiCache.delete c key) now' key).1 = None ∧
  (ApiCache.get (ApiCache.clear c) now' key).1 = None.
Proof.
  split_and!.
  - destruct (ApiCache.cache c !! key) as [item|] eqn:E.
    + destruct (Z.ltb_spec (ApiCache.ttl c) (now - ApiCache.timestamp item)).
      * rewrite (cache_get_stale _ _ _ _ E) by done. intros _.
        unfold ApiCache.get, ApiCache.delete. cbn. by rewrite lookup_delete_eq.
      * by rewrite (cache_get_fresh _ _ _ _ E).
    + rewrite (cache_get_miss _ now _ E). intros _. cbn.
      by rewrite (cache_get_miss _ now' _ E).
  - unfold ApiCache.get, ApiCache.delete. cbn. by rewrite lookup_delete_eq.
  - unfold ApiCache.get, ApiCache.clear. cbn. by rewrite lookup_empty.
Qed.

(** X13. What was written is read back for as long as its age is at most the
    time to live, and never after. *)
Theorem cache_set_then_get c now now' key v :
  (ApiCache.get (ApiCache.set c now key v) now' key).1
  = if decide (now' - now ≤ ApiCache.ttl c) then Some v else None.
Proof.
  unfold ApiCache.get, ApiCache.set. cbn. rewrite lookup_insert_eq. cbn.
  destruct (decide _) as [H|H]; destruct (Z.ltb_spec (ApiCache.ttl c) (now' - now));
    done || lia.
Qed.
End CacheKeys.

Lemma cache_other_keys_witness :
  (ApiCache.get (ApiCache.set (ApiCache.new (Some 10)) 0 "a" 1%nat) 5 "b").1
  = (ApiCache.get (ApiCache.new (Some 10)) 5 "b").1.
Proof.
  exact (proj1 (cache_other_keys (ApiCache.new (Some 10)) 0 5 "a" "b" 1%nat
                  ltac:(done))).
Defined.

(** ** The id guard of the client *)

Section IdGuard.
Import Js ExpressValidator ApiClient.

(** X14. [!id || isNaN(parseInt(id))] refuses exactly the values [parseInt]
    cannot read and the number 0. *)
Theorem bad_id_spec (id : Value) :
  bad_id id = true ↔ parseInt id = None ∨ id = Num 0.
Proof.
  unfold bad_id. rewrite orb_true_iff, negb_true_iff, bool_decide_eq_true.
  destruct id as [| |b|n|s]; cbn [truthy].
  - split; [intros _|]; by left.
  - split; [intros _|]; by left.
  - destruct b; [intuition congruence|]. split; [intros _|]; by left.
  - rewrite parseInt_pretty, negb_false_iff, Z.eqb_eq.
    split; [intros [->|]; [by right|done]|intros [|[= ->]]; [done|by left]].
  - rewrite negb_false_iff. split; [intros [H|H]|intros [H|H]]; [|by left|by right|done].
    left. apply String.eqb_eq in H as ->. done.
Qed.

(** X15. On the id of a path, the guard of the client and the 400 of the
    server agree. *)
Theorem id_guard_agrees (st : Api.Store) (id : string) :
  bad_id (Str id) = true ↔ Api.status (Api.get_user st id) = 400.
Proof.
  unfold bad_id, Api.get_user. cbn [truthy].
  rewrite orb_true_iff, negb_true_iff, negb_false_iff, bool_decide_eq_true.
  destruct (parseInt (Str id)) as [n|] eqn:E.
  - split.
    + intros [H|H]; [|done]. apply String.eqb_eq in H as ->. done.
    + destruct (list_find _ _) as [[]|]; done.
  - split; [done|]. intros _. by right.
Qed.

(** X16. For a number within the safe integers, where [String(n)] is the
    decimal form, a path made from the number is read back as that number:
    the id routes never answer it with [Invalid user ID format]. *)
Theorem numeric_id_found (st : Api.Store) (n : Z) :
  - 2 ^ 53 < n < 2 ^ 53 →
  Api.get_user st (ToString (Num n))
  = match list_find (λ u, User.id u = n) (Api.users st) with
    | Some (_, user) => {| Api.status := 200; Api.json := Api.UserData None user |}
    | None => Api.not_found
    end ∧
  (Api.delete_user st (ToString (Num n))).1 ≠ Api.invalid_id.
Proof.
  intros _. pose proof (parseInt_pretty n) as E.
  unfold Api.get_user, Api.delete_user, parseInt in *. cbn [ToString] in *.
  rewrite E. split; [done|]. by destruct (list_find _ _) as [[]|].
Qed.
End IdGuard.

Lemma numeric_id_found_witness :
  Api.get_user Api.initial (Js.ToString (Js.Num 2))
  = match list_find (λ u, User.id u = 2) (Api.users Api.initial) with
    | Some (_, user) => {| Api.status := 200; Api.json := Api.UserData None user |}
    | None => Api.not_found
    end ∧
  (Api.delete_user Api.initial (Js.ToString (Js.Num 2))).1 ≠ Api.invalid_id.
Proof. apply (numeric_id_found Api.initial 2). lia. Defined.

(** ** What the client reports *)

Section Reports.
Import Js ExpressValidator Chains ApiClient ApiError Invariant.
Variable isEmail : string → bool.
Variable normalizeEmail : string → Value.

Lemma violation_has_message userData isPartial v :
  validateUserData userData isPartial = Some v → Violation.message v ≠ "".
Proof.
  unfold validateUserData.
  repeat (destruct (_ && _); [by intros [= <-]|]). done.
Qed.

Lemma or_else_left a b : a ≠ "" → or_else a b = a.
Proof. unfold or_else. by destruct a. Qed.

(** X17. A payload the client refuses is reported with the message of the
    violation [validateUserData] found, as a validation error of status
    400; a refused id is reported as [Invalid user ID], which
    [isValidationError] does not count as a validation error. *)
Theorem refusal_message userData isPartial v :
  validateUserData userData isPartial = Some v →
  getUserMessage (validation_error v) = Violation.message v ∧
  isValidationError (validation_error v) = true ∧
  getUserMessage ApiClient.invalid_id = "Invalid user ID" ∧
  isValidationError ApiClient.invalid_id = false.
Proof.
  intros Hv. split_and!; try done.
  unfold getUserMessage. cbn. apply or_else_left. by eapply violation_has_message.
Qed.

(** X18. A call that makes no request. A [getUsers] without a request is a
    hit of the cache. A mutation without a request is rejected with status
    400, leaves the cache as it was, and settles the same way whatever the
    network would have answered. *)
Theorem call_without_request (c : CachedApiClient.t) k net o c' :
  CachedApiClient.call c k net = (o, false, c') →
  match k with
  | CachedApiClient.GetUsers filters now _ =>
      ∃ data, o = Resolved data ∧
        (ApiCache.get c now (CachedApiClient.cacheKey filters)).1 = Some data
  | _ =>
      c' = c ∧ (∃ e, o = Rejected e ∧ status e = 400) ∧
      ∀ net', CachedApiClient.call c k net' = (o, false, c)
  end.
Proof.
  destruct k as [filters now now'|userData|id userData|id]; cbn [CachedApiClient.call].
  - unfold CachedApiClient.getUsers, ApiClient.getUsers.
    destruct (ApiCache.get _ _ _) as [[data|] c1]; [|by destruct net].
    intros [= <- <-]. by exists data.
  - unfold CachedApiClient.createUser, ApiClient.createUser.
    destruct (validateUserData _ _) as [v|]; cbn; [|by destruct net].
    intros [= <- <-]. split_and!; [done|by eexists|done].
  - unfold CachedApiClient.updateUser, ApiClient.updateUser.
    destruct (bad_id id).
    { cbn. intros [= <- <-]. split_and!; [done|by eexists|done]. }
    destruct (validateUserData _ _) as [v|]; cbn; [|by destruct net].
    intros [= <- <-]. split_and!; [done|by eexists|done].
  - unfold CachedApiClient.deleteUser, ApiClient.deleteUser.
    destruct (bad_id id); cbn; [|by destruct net].
    intros [= <- <-]. split_and!; [done|by eexists|done].
Qed.




End Reports.

(** ** What the write routes read of a body *)


Section BodyFacts.
Import Js ExpressValidator Chains.
Variable isEmail : string → bool.
Variable normalizeEmail : string → Value.

Lemma prop_wire (userData : Obj) k : prop (Session.wire userData) k = prop userData k.
Proof.
  unfold prop, Session.wire.
  destruct (userData !! k) as [v|] eqn:E.
  - destruct (decide (v = Undefined)) as [->|Hv].
    + cbn. destruct (filter _ userData !! k) as [w|] eqn:E'; [|done].
      apply map_lookup_filter_Some in E' as [E' Hw]. cbn in Hw. congruence.
    + assert (filter (λ kv : string * Value, kv.2 ≠ Undefined) userData !! k = Some v) as ->; [|done].
      by apply map_lookup_filter_Some.
  - assert (filter (λ kv : string * Value, kv.2 ≠ Undefined) userData !! k = None) as ->; [|done].
    apply map_lookup_filter_None. by left.
Qed.

(** X20. The two write routes read [name], [email] and [role] of the body
    and nothing else: bodies that agree on these three get the same
    response and leave the same store. *)
Theorem body_three_properties st id now (body body' : Obj) :
  prop body "name" = prop body' "name" →
  prop body "email" = prop body' "email" →
  prop body "role" = prop body' "role" →
  Api.post_users isEmail normalizeEmail st body now
  = Api.post_users isEmail normalizeEmail st body' now ∧
  Api.put_user isEmail normalizeEmail st id body now
  = Api.put_user isEmail normalizeEmail st id body' now.
Proof.
  intros Hn He Hr. split.
  - rewrite !post_users_unfold.
    pose proof (run_chains_spec isEmail normalizeEmail false body) as (E1 & N1 & M1 & R1).
    pose proof (run_chains_spec isEmail normalizeEmail false body') as (E2 & N2 & M2 & R2).
    cbn [chains] in *. rewrite E1, E2. unfold errors, Api.post_users_handler.
    by rewrite N1, N2, M1, M2, R1, R2, Hn, He, Hr.
  - rewrite !put_user_unfold.
    pose proof (run_chains_spec isEmail normalizeEmail true body) as (E1 & N1 & M1 & R1).
    pose proof (run_chains_spec isEmail normalizeEmail true body') as (E2 & N2 & M2 & R2).
    cbn [chains] in *. rewrite E1, E2. unfold errors, Api.put_user_handler.
    by rewrite N1, N2, M1, M2, R1, R2, Hn, He, Hr.
Qed.

End BodyFacts.

(** ** The cache of one client against the store *)

Section SessionFacts.
Import Js ExpressValidator ApiClient Session.
Variable isEmail : string → bool.
Variable normalizeEmail : string → Value.

Lemma cache_get_inv {V} (c : ApiCache.t V) now key r c1 :
  ApiCache.get c now key = (r, c1) →
  (∀ key' item, ApiCache.cache c1 !! key' = Some item →
     ApiCache.cache c !! key' = Some item) ∧
  (∀ v, r = Some v →
     c1 = c ∧ ∃ item, ApiCache.cache c !! key = Some item ∧ ApiCache.value item = v).
Proof.
  unfold ApiCache.get. destruct (ApiCache.cache c !! key) as [item|] eqn:E.
  - destruct (_ <? _); intros [= <- <-]; split; try done.
    + cbn. intros key' item' H. apply lookup_delete_Some in H. tauto.
    + intros v [= <-]. split; [done|]. by exists item.
  - intros [= <- <-]. done.
Qed.

(** A read leaves the store alone and, when it is answered, yields what
    the route sends. *)
Lemma exchange_read l st iso q net st' :
  exchange isEmail normalizeEmail l st iso (Api.GET_users q) = (net, st') →
  st' = st ∧
  (net = Resolved (Api.json (Api.get_users st q)) ∨ ∃ e, net = Rejected e).
Proof.
  destruct l as [|e|]; cbn; intros [= <- <-]; split; try done.
  - by left.
  - right. by eexists.
  - right. by eexists.
Qed.

(** A write whose response is not lost: either the client sees it resolve,
    or the store is as it was. *)
Lemma exchange_write l st iso req net st' :
  l ≠ Unanswered →
  exchange isEmail normalizeEmail l st iso req = (net, st') →
  (∃ data, net = Resolved data) ∨ ((∃ e, net = Rejected e) ∧ st' = st).
Proof.
  intros Hl. destruct l as [|e|]; [| |done]; cbn.
  - destruct (Api.handle _ _ _ _ _) as [res st1] eqn:Hh. intros [= <- <-].
    unfold request. destruct (ok (Api.status res)) eqn:Hok; [left; by eexists|].
    right. split; [by eexists|].
    eapply rejected_leaves_store; [done|intros E; rewrite E in Hok; done..].
  - intros [= <- <-]. right. split; [by eexists|done].
Qed.

Lemma coherent_clear F c st :
  coherent F {| client := ApiCache.clear c; server := st |}.
Proof. intros key item. cbn. by rewrite lookup_empty. Qed.

Lemma invalidating_coherent F s l iso req net st' (r : bool → Outcome * bool) o used c' :
  l ≠ Unanswered →
  coherent F s →
  exchange isEmail normalizeEmail l (server s) iso req = (net, st') →
  (∀ b, r b = (net, true) ∨ ∃ e, r b = (Rejected e, false)) →
  CachedApiClient.invalidating (client s) (r true) = (o, used, c') →
  coherent F {| client := c'; server := if used then st' else server s |}.
Proof.
  intros Hl Hc Hex Hr. unfold CachedApiClient.invalidating.
  destruct (Hr true) as [-> | [e ->]].
  - destruct (exchange_write _ _ _ _ _ _ Hl Hex) as [[data ->] | [[e ->] ->]];
      intros [= <- <- <-]; [apply coherent_clear|]. by destruct s.
  - intros [= <- <- <-]. by destruct s.
Qed.

Lemma step_coherent F s ev o s' :
  separated F → coherent F s → answered ev →
  (∀ filters, filters_of (call ev) = Some filters → filters ∈ F) →
  step isEmail normalizeEmail s ev = (o, s') →
  coherent F s' ∧
  ∀ filters data, filters_of (call ev) = Some filters → o = Resolved data →
    data = Api.json (Api.get_users (server s') (query filters)).
Proof.
  intros Hsep Hc Hans HF. destruct ev as [k l iso]. unfold step. cbn [call link Session.iso].
  destruct (exchange _ _ _ _ _ _) as [net st'] eqn:Hex.
  destruct (CachedApiClient.call _ _ _) as [[o1 used] c'] eqn:Hcall.
  intros [= <- <-].
  assert (∀ x, is_Some (filters_of x) ∨ filters_of x = None) as Hcases
    by (intros []; cbn; eauto).
  destruct k as [filters now now'|userData|id userData|id]; cbn [filters_of] in *.
  - apply exchange_read in Hex as [-> Hnet].
    assert (filters ∈ F) as Hin by by apply HF.
    cbn in Hcall. unfold CachedApiClient.getUsers, ApiClient.getUsers in Hcall.
    destruct (ApiCache.get _ _ _) as [cached c1] eqn:Hget.
    apply cache_get_inv in Hget as [Hsub Hhit].
    assert (server s = (if used then server s else server s)) as <- by by destruct used.
    destruct cached as [data|].
    + injection Hcall as <- <- <-.
      destruct (Hhit data eq_refl) as (-> & item & Hitem & Hval).
      split; [by destruct s|]. intros ? ? [= <-] [= <-]. cbn.
      destruct (Hc _ _ Hitem) as (f' & Hf' & Hkey & Hv).
      rewrite <- Hval, Hv. by rewrite (Hsep _ _ Hf' Hin (eq_sym Hkey)).
    + destruct Hnet as [-> | [e ->]]; injection Hcall as <- <- <-.
      * split.
        -- intros key item. cbn. intros Hl.
           apply lookup_insert_Some in Hl as [[<- <-] | [Hne Hl]].
           ++ by exists filters.
           ++ apply Hc. by apply Hsub.
        -- by intros ? ? [= <-] [= <-].
      * split; [|done]. intros key item Hl. apply Hc. by apply Hsub.
  - assert (l ≠ Unanswered) as Hl.
    { intros ->. by destruct (Hans eq_refl). }
    split; [|done].
    eapply (invalidating_coherent F s l iso _ net st'
              (λ _, ApiClient.createUser userData net)); try done.
    intros _. unfold ApiClient.createUser. destruct (validateUserData _ _); eauto.
  - assert (l ≠ Unanswered) as Hl.
    { intros ->. by destruct (Hans eq_refl). }
    split; [|done].
    eapply (invalidating_coherent F s l iso _ net st'
              (λ _, ApiClient.updateUser (Num id) userData net)); try done.
    intros _. unfold ApiClient.updateUser.
    destruct (bad_id _); [eauto|]. destruct (validateUserData _ _); eauto.
  - assert (l ≠ Unanswered) as Hl.
    { intros ->. by destruct (Hans eq_refl). }
    split; [|done].
    eapply (invalidating_coherent F s l iso _ net st'
              (λ _, ApiClient.deleteUser (Num id) net)); try done.
    intros _. unfold ApiClient.deleteUser. destruct (bad_id _); eauto.
Qed.

Lemma run_current F evs : ∀ s,
  separated F → coherent F s → Forall answered evs →
  (∀ filters, filters ∈ omap (filters_of ∘ call) evs → filters ∈ F) →
  Forall current (run isEmail normalizeEmail s evs).
Proof.
  induction evs as [|ev evs IH]; intros s Hsep Hc Hans HF; cbn [run]; [constructor|].
  destruct (step _ _ s ev) as [o s'] eqn:Hstep.
  apply Forall_cons in Hans as [Hev Hans].
  assert (∀ filters, filters_of (call ev) = Some filters → filters ∈ F) as Hin.
  { intros filters Hf. apply HF. cbn. rewrite Hf. by left. }
  destruct (step_coherent F s ev o s' Hsep Hc Hev Hin Hstep) as [Hc' Hcur].
  constructor; [done|]. apply IH; try done.
  intros filters Hf. apply HF. cbn. destruct (filters_of (call ev)); [by right|done].
Qed.

(** X21. With one client, whose calls settle one at a time, and no response
    to a mutation lost, the cache never serves a stale list: every
    [getUsers] that resolves, from the cache or from the network, gives
    what [GET /users] would answer at that moment for these filters,
    whatever the clock and the time to live. Filters with the same cache
    key are required to make the same query. *)
Theorem reads_are_current evs :
  separated (omap (filters_of ∘ call) evs) → Forall answered evs →
  Forall current (run isEmail normalizeEmail (Session.initial) evs).
Proof.
  intros Hsep Hans. by apply (run_current (omap (filters_of ∘ call) evs)).
Qed.
End SessionFacts.

(** ** The filters of the page *)


Section CacheKeyFacts.
Import Js JSON Reader.

Lemma unescape_escape c x : unescape (escape c +:+ x) = Some (c, x).
Proof.
  destruct c as [b0 b1 b2 b3 b4 b5 b6 b7].
  destruct b0, b1, b2, b3, b4, b5, b6, b7; reflexivity.
Qed.

Lemma append_assoc_string (a b c : string) : (a +:+ b) +:+ c = a +:+ (b +:+ c).
Proof.
  induction a as [|x a IH]; [done|].
  change (String x ((a +:+ b) +:+ c) = String x (a +:+ (b +:+ c))). by f_equal.
Qed.

Lemma escape_all_inj r1 : ∀ r2 x y,
  escape_all r1 +:+ String (ascii_of_nat 34) x
  = escape_all r2 +:+ String (ascii_of_nat 34) y →
  r1 = r2.
Proof.
  induction r1 as [|c1 r1 IH]; intros [|c2 r2] x y; cbn [escape_all]; [done|..].
  - rewrite append_assoc_string. intros H. apply (f_equal unescape) in H.
    rewrite unescape_escape in H. done.
  - rewrite append_assoc_string. intros H. apply (f_equal unescape) in H.
    rewrite unescape_escape in H. done.
  - rewrite !append_assoc_string. intros H. apply (f_equal unescape) in H.
    rewrite !unescape_escape in H. injection H as -> H. f_equal. by eapply IH.
Qed.

(** X22. Two role filters of the page with the same cache key are the same
    filter: no filtered list is served from the entry of another filter or
    of the unfiltered list. *)
Theorem page_filter_keys (r1 r2 : string) :
  CachedApiClient.cacheKey (App.filters r1) = CachedApiClient.cacheKey (App.filters r2) →
  r1 = r2.
Proof.
  unfold App.filters. cbn [truthy].
  destruct r1 as [|c1 r1], r2 as [|c2 r2]; [done|..]; cbn [String.eqb negb].
  - unfold CachedApiClient.cacheKey, stringify, member, value, quote; cbn. intros [=].
  - unfold CachedApiClient.cacheKey, stringify, member, value, quote; cbn. intros [=].
  - generalize (String c1 r1) (String c2 r2). intros s1 s2.
    unfold CachedApiClient.cacheKey, stringify, member, value, quote; cbn.
    intros [= H]. rewrite !append_assoc_string in H. cbn in H.
    by rewrite (escape_all_inj _ _ _ _ H).
Qed.

(** X23. The list the page asks for. With the filter on a role the server
    answers with the first 50 of the records that have exactly this role,
    with no filter the first 50 of all; [total] counts them all. *)
Theorem page_list (st : Api.Store) (currentFilter : string) :
  Api.get_users st (Session.query (App.filters currentFilter))
  = let wanted :=
      if decide (currentFilter = "") then Api.users st
      else filter (λ u, User.role u = Str currentFilter) (Api.users st) in
    {| Api.status := 200;
       Api.json := Api.UserList (take 50 wanted) (length wanted)
                     (length (take 50 wanted)) |}.
Proof.
  unfold App.filters. cbn [truthy].
  destruct currentFilter as [|c r]; [done|].
  unfold Api.get_users, Session.query. cbn.
  rewrite prop_insert_eq, prop_insert_ne by done.
  unfold ExpressValidator.prop. by rewrite lookup_empty.
Qed.
End CacheKeyFacts.

Lemma page_filter_keys_witness : "admin" = "admin".
Proof. apply (page_filter_keys "admin" "admin"). reflexivity. Defined.

(** ** A response that is lost, and the page after a create *)

Section LostResponse.
Import Js ExpressValidator ApiClient Session.
Variable isEmail : string → bool.
Variable normalizeEmail : string → Value.

(** X24. The hypothesis on the responses is needed. When the response to a
    [createUser] the client had accepted is lost, the call is rejected as a
    network error although the route has handled the request, the cache is
    not cleared, and a [getUsers] within the time to live of an entry is
    still served that entry, without a request. *)
Theorem lost_response_keeps_entry (s : Session.t) filters item userData iso iso' l now now' :
  ApiCache.cache (client s) !! CachedApiClient.cacheKey filters = Some item →
  now - ApiCache.timestamp item ≤ ApiCache.ttl (client s) →
  validateUserData userData false = None →
  let r1 := step isEmail normalizeEmail s
              {| call := CreateUser userData; link := Unanswered; iso := iso |} in
  let r2 := step isEmail normalizeEmail r1.2
              {| call := GetUsers filters now now'; link := l; iso := iso' |} in
  r1.1 = Rejected network_error ∧
  server r1.2 = (Api.post_users isEmail normalizeEmail (server s) (wire userData) iso).2 ∧
  client r1.2 = client s ∧
  r2.1 = Resolved (ApiCache.value item) ∧ server r2.2 = server r1.2.
Proof.
  intros Hitem Hage Hvalid r1.
  assert (r1 = (Rejected network_error,
                {| client := client s;
                   server := (Api.post_users isEmail normalizeEmail (server s)
                                (wire userData) iso).2 |})) as ->.
  { subst r1. unfold step. cbn.
    unfold CachedApiClient.createUser, ApiClient.createUser. by rewrite Hvalid. }
  cbn. split_and!; try done.
  all: unfold step; cbn [call link Session.iso client server method CachedApiClient.call].
  all: destruct (exchange _ _ _ _ _ _) as [net st'].
  all: unfold CachedApiClient.getUsers.
  all: by rewrite (cache_get_fresh _ _ _ _ Hitem Hage).
Qed.

Lemma get_users_no_query (st : Api.Store) :
  Api.get_users st ∅
  = {| Api.status := 200;
       Api.json := Api.UserList (take 50 (Api.users st)) (length (Api.users st))
                     (length (take 50 (Api.users st))) |}.
Proof. unfold Api.get_users, prop. by rewrite !lookup_empty. Qed.

(** X25. The list without a filter after a create. The new record is the
    last of the collection and the list stops at 50: it ends with the new
    record when fewer than 50 were stored, and does not change when 50 or
    more were. *)
Theorem created_user_listed st body now res st' m u :
  Api.post_users isEmail normalizeEmail st body now = (res, st') →
  res = {| Api.status := 201; Api.json := Api.UserData m u |} →
  ∃ data total returned,
    Api.json (Api.get_users st' ∅) = Api.UserList data total returned ∧
    total = S (length (Api.users st)) ∧
    ((length (Api.users st) < 50)%nat → data = (Api.users st ++ [u])%list) ∧
    ((50 ≤ length (Api.users st))%nat →
     Api.json (Api.get_users st ∅) = Api.UserList data (length (Api.users st)) returned).
Proof.
  intros Hpost ->.
  pose proof (handle_effect isEmail normalizeEmail st now (Api.POST_users body) _ _ Hpost)
    as Heff.
  inversion Heff as [? ? Hs| ? ? Hid _ | |]; subst; [done|].
  rewrite !get_users_no_query. cbn [Api.json Api.users]. eexists _, _, _.
  split; [done|]. rewrite length_app, Nat.add_1_r. split; [done|]. split; intros Hlen.
  - apply take_ge. rewrite length_app. cbn. lia.
  - by rewrite take_app_le by lia.
Qed.
End LostResponse.

(** ** The theorems on examples *)


Lemma post_users_created_witness :
  Api.status
    (Api.post_users Sample.isEmail Sample.normalizeEmail Api.initial
       (Sample.body (Js.Str " New User ") (Js.Str "New@Example.com") Js.Undefined)
       Sample.now).1 = 201.
Proof.
  rewrite (post_users_created Sample.isEmail Sample.normalizeEmail Api.initial
             (Sample.body (Js.Str " New User ") (Js.Str "New@Example.com") Js.Undefined)
             Sample.now).
  - reflexivity.
  - vm_compute. reflexivity.
  - repeat constructor; vm_compute; discriminate.
Defined.

Lemma post_then_get_witness :
  let body := Sample.body (Js.Str "New User") (Js.Str "new@example.com") (Js.Str "user") in
  let u := {| User.id := 3; User.name := Js.Str "New User";
              User.email := Js.Str "new@example.com"; User.role := Js.Str "user";
              User.createdAt := Some Sample.now; User.updatedAt := None |} in
  let st' := (Api.post_users Sample.isEmail Sample.normalizeEmail Api.initial body
                Sample.now).2 in
  Api.get_user st' (pretty (User.id u))
    = {| Api.status := 200; Api.json := Api.UserData None u |} ∧
  filter (λ y, User.id y = User.id u) (Api.users st') = [u].
Proof.
  intros body u st'.
  apply (post_then_get Sample.isEmail Sample.normalizeEmail Api.initial body Sample.now
           {| Api.status := 201;
              Api.json := Api.UserData (Some "User created successfully") u |}
           st' (Some "User created successfully") u).
  - apply ids_below_initial.
  - vm_compute. reflexivity.
  - reflexivity.
Defined.

Lemma put_user_empty_body_witness :
  Api.status
    (Api.put_user Sample.isEmail Sample.normalizeEmail Api.initial "1" ∅ Sample.now).1
  = 200.
Proof.
  rewrite (put_user_empty_body Sample.isEmail Sample.normalizeEmail Api.initial "1" ∅
             Sample.now 1 0
             {| User.id := 1; User.name := Js.Str "Admin User";
                User.email := Js.Str "admin@example.com"; User.role := Js.Str "admin";
                User.createdAt := None; User.updatedAt := None |}).
  - reflexivity.
  - reflexivity.
  - reflexivity.
  - reflexivity.
  - vm_compute. reflexivity.
  - vm_compute. reflexivity.
Defined.

Lemma body_three_properties_witness :
  Api.post_users Sample.isEmail Sample.normalizeEmail Api.initial
    (<["id" := Js.Num 99]> (Sample.body (Js.Str "Ann") (Js.Str "ann@example.com") Js.Undefined))
    Sample.now
  = Api.post_users Sample.isEmail Sample.normalizeEmail Api.initial
      (Sample.body (Js.Str "Ann") (Js.Str "ann@example.com") Js.Undefined) Sample.now.
Proof.
  apply (body_three_properties Sample.isEmail Sample.normalizeEmail Api.initial "1"
           Sample.now); vm_compute; reflexivity.
Defined.

Lemma refusal_message_witness :
  ApiError.getUserMessage
    (ApiClient.validation_error
       {| Violation.field := "name"; Violation.message := "Name is required" |})
  = "Name is required".
Proof.
  apply (refusal_message ∅ false
           {| Violation.field := "name"; Violation.message := "Name is required" |}).
  vm_compute. reflexivity.
Defined.

Lemma call_without_request_witness :
  CachedApiClient.new = CachedApiClient.new ∧
  (∃ e, ApiClient.Rejected ApiClient.invalid_id = ApiClient.Rejected e
        ∧ ApiError.status e = 400) ∧
  ∀ net',
    CachedApiClient.call CachedApiClient.new (CachedApiClient.DeleteUser (Js.Num 0)) net'
    = (ApiClient.Rejected ApiClient.invalid_id, false, CachedApiClient.new).
Proof.
  apply (call_without_request CachedApiClient.new
           (CachedApiClient.DeleteUser (Js.Num 0))
           (ApiClient.Rejected ApiClient.network_error)
           (ApiClient.Rejected ApiClient.invalid_id) CachedApiClient.new).
  vm_compute. reflexivity.
Defined.

Lemma reads_are_current_witness :
  Forall Session.current
    (Session.run Sample.isEmail Sample.normalizeEmail Session.initial
       [ {| Session.call := Session.GetUsers (App.filters "") 0 0;
            Session.link := Session.Delivered; Session.iso := Sample.now |};
         {| Session.call :=
              Session.CreateUser
                (Sample.body (Js.Str "Ann") (Js.Str "ann@example.com") (Js.Str "admin"));
            Session.link := Session.Delivered; Session.iso := Sample.now |};
         {| Session.call := Session.GetUsers (App.filters "admin") 5 6;
            Session.link := Session.Unanswered; Session.iso := Sample.now |};
         {| Session.call := Session.GetUsers (App.filters "") 10 11;
            Session.link := Session.Delivered; Session.iso := Sample.now |} ]).
Proof.
  apply reads_are_current.
  - intros f1 f2 H1 H2. cbn in H1, H2. set_unfold.
    destruct H1 as [->|[->|[->|[]]]], H2 as [->|[->|[->|[]]]]; try done;
      vm_compute; discriminate.
  - repeat constructor; intros H; cbn in H; by (discriminate || eexists).
Defined.

Lemma lost_response_keeps_entry_witness :
  let list := Api.json (Api.get_users Api.initial ∅) in
  let s := {| Session.client :=
                ApiCache.set CachedApiClient.new 0 (CachedApiClient.cacheKey []) list;
              Session.server := Api.initial |} in
  let userData := Sample.body (Js.Str "Ann") (Js.Str "ann@example.com") (Js.Str "admin") in
  let r1 := Session.step Sample.isEmail Sample.normalizeEmail s
              {| Session.call := Session.CreateUser userData;
                 Session.link := Session.Unanswered; Session.iso := Sample.now |} in
  let r2 := Session.step Sample.isEmail Sample.normalizeEmail r1.2
              {| Session.call := Session.GetUsers [] 100 100;
                 Session.link := Session.Delivered; Session.iso := Sample.now |} in
  r2.1 = ApiClient.Resolved list ∧
  length (Api.users (Session.server r2.2)) = 3%nat.
Proof.
  intros list s userData r1 r2.
  destruct (lost_response_keeps_entry Sample.isEmail Sample.normalizeEmail s []
              {| ApiCache.value := list; ApiCache.timestamp := 0 |} userData
              Sample.now Sample.now Session.Delivered 100 100)
    as (_ & H1 & _ & H2 & H3).
  - vm_compute. reflexivity.
  - vm_compute. discriminate.
  - vm_compute. reflexivity.
  - split; [exact H2|]. fold r1 r2 in H3. rewrite H3. vm_compute. reflexivity.
Defined.

Lemma created_user_listed_witness :
  ∃ data total returned,
    Api.json
      (Api.get_users
         (Api.post_users Sample.isEmail Sample.normalizeEmail Api.initial
            (Sample.body (Js.Str "Ann") (Js.Str "ann@example.com") (Js.Str "admin"))
            Sample.now).2 ∅)
    = Api.UserList data total returned ∧ total = 3%nat.
Proof.
  destruct (created_user_listed Sample.isEmail Sample.normalizeEmail Api.initial
              (Sample.body (Js.Str "Ann") (Js.Str "ann@example.com") (Js.Str "admin"))
              Sample.now
              {| Api.status := 201;
                 Api.json :=
                   Api.UserData (Some "User created successfully")
                     {| User.id := 3; User.name := Js.Str "Ann";
                        User.email := Js.Str "ann@example.com";
                        User.role := Js.Str "admin";
                        User.createdAt := Some Sample.now; User.updatedAt := None |} |}
              (Api.post_users Sample.isEmail Sample.normalizeEmail Api.initial
                 (Sample.body (Js.Str "Ann") (Js.Str "ann@example.com") (Js.Str "admin"))
                 Sample.now).2
              (Some "User created successfully")
              {| User.id := 3; User.name := Js.Str "Ann";
                 User.email := Js.Str "ann@example.com"; User.role := Js.Str "admin";
                 User.createdAt := Some Sample.now; User.updatedAt := None |})
    as (data & total & returned & H & Ht & _).
  - vm_compute. reflexivity.
  - reflexivity.
  - by exists data, total, returned.
Defined.

(** ** The form of the page *)

Section TrimFacts.
Import Js.

Lemma rev_app_append s : ∀ t, String.rev_app s t = String.rev s +:+ t.
Proof.
  unfold String.rev. induction s as [|c s IH]; intros t; [done|].
  cbn [String.rev_app]. rewrite IH, (IH (String c "")).
  by rewrite append_assoc_string.
Qed.

Lemma rev_cons c s : String.rev (String c s) = String.rev s +:+ String c "".
Proof. unfold String.rev at 1. cbn [String.rev_app]. apply rev_app_append. Qed.

Lemma append_empty_r s : s +:+ "" = s.
Proof.
  induction s as [|c s IH]; [done|].
  change (String c (s +:+ "") = String c s). by f_equal.
Qed.

Lemma rev_append a : ∀ b, String.rev (a +:+ b) = String.rev b +:+ String.rev a.
Proof.
  induction a as [|c a IH]; intros b.
  - change ("" +:+ b) with b. change (String.rev "") with "". by rewrite append_empty_r.
  - change (String c a +:+ b) with (String c (a +:+ b)).
    by rewrite !rev_cons, IH, append_assoc_string.
Qed.

Lemma rev_rev s : String.rev (String.rev s) = s.
Proof.
  induction s as [|c s IH]; [done|].
  by rewrite rev_cons, rev_append, IH.
Qed.

Lemma ltrim_ltrim s : ltrim (ltrim s) = ltrim s.
Proof.
  induction s as [|c s IH]; [done|]. cbn [ltrim].
  destruct (is_space c) eqn:E; [done|]. cbn [ltrim]. by rewrite E.
Qed.

Lemma ltrim_head s c t : ltrim s = String c t → is_space c = false.
Proof.
  induction s as [|d s IH]; [done|]. cbn [ltrim].
  destruct (is_space d) eqn:E; [done|]. by intros [= <- <-].
Qed.

Lemma ltrim_append_stop a c b :
  is_space c = false → ltrim (a +:+ String c b) = ltrim a +:+ String c b.
Proof.
  intros Hc. induction a as [|d a IH].
  - change ("" +:+ String c b) with (String c b). cbn [ltrim]. by rewrite Hc.
  - change (String d a +:+ String c b) with (String d (a +:+ String c b)).
    cbn [ltrim]. by destruct (is_space d).
Qed.

Lemma rtrim_cons c t : is_space c = false → rtrim (String c t) = String c (rtrim t).
Proof.
  intros Hc. unfold rtrim.
  by rewrite rev_cons, ltrim_append_stop, rev_append by done.
Qed.

(** [s.trim().trim()] is [s.trim()]. *)
Lemma trim_trim s : trim (trim s) = trim s.
Proof.
  unfold trim.
  assert (ltrim (rtrim (ltrim s)) = rtrim (ltrim s)) as ->.
  { destruct (ltrim s) as [|c t] eqn:E; [done|].
    rewrite rtrim_cons by by eapply ltrim_head. cbn [ltrim].
    by rewrite (ltrim_head _ _ _ E). }
  unfold rtrim. by rewrite rev_rev, ltrim_ltrim.
Qed.
End TrimFacts.

Section FormFacts.
Import Js ExpressValidator Chains ApiClient Rules.
Variable isEmail : string → bool.
Variable normalizeEmail : string → Value.

Lemma userData_props f :
  prop (App.userData f) "name" = Str (Js.trim (App.userName f)) ∧
  prop (App.userData f) "email" = Str (Js.trim (App.userEmail f)) ∧
  prop (App.userData f) "role" = App.userRole f.
Proof.
  unfold prop, App.userData. split_and!.
  - by rewrite lookup_insert_eq.
  - by rewrite lookup_insert_ne, lookup_insert_eq.
  - by rewrite !lookup_insert_ne, lookup_singleton_eq.
Qed.

(** The check of the form on a name is the rule of the client on the
    trimmed name, in both modes. *)
Lemma validateName_rule isPartial value :
  App.validateName value = true ↔ name_violation isPartial (Str (Js.trim value)) = None.
Proof.
  unfold App.validateName, name_violation, bad_name. cbn [truthy defined andb].
  rewrite trim_trim.
  destruct (Js.trim value) as [|c t] eqn:E.
  - cbn. destruct isPartial; cbn; split; done.
  - cbn [String.eqb negb]. rewrite andb_false_r.
    destruct (_ || _); split; done.
Qed.

Lemma validateEmail_rule value :
  App.validateEmail value = true ↔ email_violation false (Str (Js.trim value)) = None.
Proof.
  unfold App.validateEmail, email_violation. cbn [truthy defined andb ToString].
  destruct (negb (String.eqb _ _)); cbn; [|split; done].
  destruct (test _ _); split; done.
Qed.

Lemma validateEmail_partial value :
  App.validateEmail value = true → email_violation true (Str (Js.trim value)) = None.
Proof.
  unfold App.validateEmail, email_violation. cbn [truthy defined andb ToString negb].
  destruct (negb (String.eqb _ _)); [|done]. by destruct (test _ _).
Qed.

(** X26. The payload of a submitted form passes [validateUserData] as a
    create exactly when [validateForm] accepted the form and the role
    field holds one of the two roles (or is missing from the payload). *)
Theorem form_check_is_client_check (f : App.Form) :
  validateUserData (App.userData f) false = None ↔
  App.validateForm f = true ∧ role_violation (App.userRole f) = None.
Proof.
  rewrite validateUserData_None.
  destruct (userData_props f) as (-> & -> & ->).
  unfold App.validateForm. cbn zeta. rewrite andb_true_iff.
  rewrite (validateName_rule false), validateEmail_rule. tauto.
Qed.

(** X27. A form that is submitted, with field values of code units below
    256, one of the two roles selected and, when a record is being edited,
    an id the guard of the client lets through: the call that
    [handleFormSubmit] makes sends its request, and of the three chains of
    the server only the one of the email can object to the payload, in POST
    and in PUT. (Beyond these strings the name chain can object too: a
    name of one surrogate pair has [.length] 2 and counts as one for the
    server.) *)
Theorem submitted_form_is_sent isLoading editingUserId (f : App.Form) k :
  App.handleFormSubmit isLoading editingUserId f = Some k →
  role_violation (App.userRole f) = None →
  (truthy editingUserId = true → bad_id editingUserId = false) →
  (∀ c net, (CachedApiClient.call c k net).1.2 = true) ∧
  ∀ opt, errors isEmail opt (Session.wire (App.userData f))
         = email_errors isEmail opt (Str (Js.trim (App.userEmail f))).
Proof.
  unfold App.handleFormSubmit. destruct isLoading; [done|].
  destruct (App.validateForm f) eqn:Hform; [|done]. cbn [negb].
  intros Hk Hrole Hid.
  unfold App.validateForm in Hform. cbn zeta in Hform.
  apply andb_true_iff in Hform as [Hname Hemail].
  assert (∀ p, validateUserData (App.userData f) p = None) as Hvalid.
  { intros p. rewrite validateUserData_None.
    destruct (userData_props f) as (-> & -> & ->). split_and!; [|destruct p|done].
    - by apply validateName_rule.
    - by apply validateEmail_partial.
    - by apply validateEmail_rule. }
  split.
  - intros c net. destruct (truthy editingUserId) eqn:Hedit; injection Hk as <-; cbn.
    + unfold CachedApiClient.updateUser, ApiClient.updateUser.
      rewrite Hid, Hvalid by done. by destruct net.
    + unfold CachedApiClient.createUser, ApiClient.createUser.
      rewrite Hvalid. by destruct net.
  - intros opt. unfold errors. rewrite !prop_wire.
    destruct (userData_props f) as (-> & -> & ->).
    assert (name_errors opt (Str (Js.trim (App.userName f))) = []) as ->.
    { unfold name_errors, name_ok, skipped. cbn [defined negb toString ToString].
      rewrite andb_false_r, trim_trim. cbn [orb].
      unfold App.validateName in Hname. cbn [truthy] in Hname.
      destruct (negb (String.eqb _ _)); [|done]. cbn [negb] in Hname.
      unfold isLength.
      destruct (Nat.ltb_spec (String.length (Js.trim (App.userName f))) 2),
        (Nat.ltb_spec 50 (String.length (Js.trim (App.userName f)))); try done.
      assert ((2 <=? String.length (Js.trim (App.userName f)))%nat = true) as ->
        by (apply Nat.leb_le; lia).
      assert ((String.length (Js.trim (App.userName f)) <=? 50)%nat = true) as ->
        by (apply Nat.leb_le; lia).
      done. }
    assert (role_errors (App.userRole f) = []) as ->.
    { unfold role_errors. by rewrite (proj1 (role_rules_agree isEmail normalizeEmail _) Hrole). }
    by rewrite app_nil_l, app_nil_r.
Qed.
End FormFacts.

Lemma submitted_form_is_sent_witness :
  let f := {| App.userName := " Ann "; App.userEmail := "ann@example.com ";
              App.userRole := Js.Str "admin" |} in
  (∀ c net,
     (CachedApiClient.call c (CachedApiClient.CreateUser (App.userData f)) net).1.2 = true) ∧
  ∀ opt, Chains.errors Sample.isEmail opt (Session.wire (App.userData f))
         = Chains.email_errors Sample.isEmail opt (Js.Str (Js.trim (App.userEmail f))).
Proof.
  intros f.
  apply (submitted_form_is_sent Sample.isEmail Sample.normalizeEmail false Js.Null f).
  - vm_compute. reflexivity.
  - vm_compute. reflexivity.
  - intros H. discriminate H.
Defined.
